(** * lite_tavily.py: the query-to-structured-answer pipeline

    A shallow embedding of the helpers of [lite_tavily.py]
    ([_strip_code_fences], [_safe_json_loads], [_build_search_query],
    [tavily_search], [groq_structured_answer]) together with the parts of
    the Python runtime they call: [str.strip], [str.lower], the three
    regular expressions of the fence stripper, [json.loads], dictionaries
    and truthiness. *)

From Stdlib Require Import List NArith ZArith Bool Ascii String Lia.
Import ListNotations.

Set Warnings "-register-all".

Local Open Scope N_scope.
Local Open Scope bool_scope.
Local Open Scope list_scope.

(** ** Python strings *)

(** A Python [str] is a sequence of Unicode code points. *)
Module PyStr.

Definition cp := N.
Definition str := list cp.

Definition of_string (s : string) : str :=
  List.map N_of_ascii (list_ascii_of_string s).

(** Source text that contains double quotes is written with single quotes:
    [quoted] reads ['] as the double quote U+0022. *)
Definition quoted (s : string) : str :=
  List.map (fun c => if N.eqb c 39 then 34 else c) (of_string s).

Definition str_eqb (a b : str) : bool :=
  if list_eq_dec N.eq_dec a b then true else false.

(** [Py_UNICODE_ISSPACE]: the characters removed by [str.strip()] and
    matched by [\s] in a [str] pattern. *)
Definition is_space (c : cp) : bool :=
  ((9 <=? c) && (c <=? 13)) || ((28 <=? c) && (c <=? 32))
  || (c =? 133) || (c =? 160) || (c =? 5760)
  || ((8192 <=? c) && (c <=? 8202))
  || (c =? 8232) || (c =? 8233) || (c =? 8239) || (c =? 8287)
  || (c =? 12288).

Fixpoint drop_while (p : cp -> bool) (s : str) : str :=
  match s with
  | [] => []
  | c :: r => if p c then drop_while p r else s
  end.

Definition lstrip (s : str) : str := drop_while is_space s.
Definition rstrip (s : str) : str := rev (drop_while is_space (rev s)).

(** [s.strip()] *)
Definition strip (s : str) : str := lstrip (rstrip s).

(** [s.startswith(p)], returning what follows the prefix. *)
Fixpoint strip_prefix (p s : str) : option str :=
  match p, s with
  | [], _ => Some s
  | _ :: _, [] => None
  | a :: p', b :: s' => if a =? b then strip_prefix p' s' else None
  end.

Definition startswith (p s : str) : bool :=
  match strip_prefix p s with Some _ => true | None => false end.

Definition endswith (p s : str) : bool := startswith (rev p) (rev s).

(** [p in s] *)
Fixpoint contains (p s : str) : bool :=
  startswith p s
  || match s with
     | [] => false
     | _ :: r => contains p r
     end.

End PyStr.
Import PyStr.

(** ** The three patterns of the fence stripper *)

Module Re.

Definition backtick : cp := 96.
Definition fence : str := [backtick; backtick; backtick].

(** The characters a pattern letter matches under [re.IGNORECASE] in a
    [str] pattern: both ASCII cases, and for [s] also U+017F (long s),
    which the engine lists as an equivalent. *)
Definition ci_j (c : cp) : bool := (c =? 106) || (c =? 74).
Definition ci_s (c : cp) : bool := (c =? 115) || (c =? 83) || (c =? 383).
Definition ci_o (c : cp) : bool := (c =? 111) || (c =? 79).
Definition ci_n (c : cp) : bool := (c =? 110) || (c =? 78).

(** [re.sub(r'^```json\s*', '', t, flags=re.IGNORECASE)]: without
    [re.MULTILINE] the anchor matches at offset 0 only, so at most one
    match is replaced. *)
Definition sub_fence_json (t : str) : str :=
  match strip_prefix fence t with
  | Some (j :: s :: o :: n :: r) =>
      if ci_j j && ci_s s && ci_o o && ci_n n
      then drop_while is_space r else t
  | _ => t
  end.

(** [re.sub(r'^```\s*', '', t, flags=re.IGNORECASE)] *)
Definition sub_fence_open (t : str) : str :=
  match strip_prefix fence t with
  | Some r => drop_while is_space r
  | None => t
  end.

(** [re.sub(r'\s*```$', '', t)]: [$] matches at the end of the text and
    also just before a line feed that ends it.  The three backticks are
    therefore the last three characters, or the three before a final
    line feed; the leftmost match takes all the whitespace in front of
    them.  Written on the reversed text. *)
Definition sub_fence_close (t : str) : str :=
  match strip_prefix fence (rev t) with
  | Some r => rev (drop_while is_space r)
  | None =>
      match rev t with
      | 10 :: r' =>
          match strip_prefix fence r' with
          | Some r => rev (drop_while is_space r) ++ [10]
          | None => t
          end
      | _ => t
      end
  end.

End Re.

(** ** lite_tavily.py, part 1: the fence stripper *)

(** [t or ''] for an optional string. *)
Definition or_empty (t : option str) : str :=
  match t with Some s => s | None => [] end.

Definition _strip_code_fences (t : option str) : str :=
  let t := strip (or_empty t) in
  let t := strip (Re.sub_fence_json t) in
  let t := strip (Re.sub_fence_open t) in
  let t := strip (Re.sub_fence_close t) in
  t.

(** ** [str.lower()] *)

(** The interpreter's Unicode database is not part of the repository: the
    three tables [str.lower()] reads are taken as data. *)
Class UnicodeData := {
  ToLowerFull : cp -> list cp;      (* _PyUnicode_ToLowerFull *)
  IsCased : cp -> bool;             (* _PyUnicode_IsCased *)
  IsCaseIgnorable : cp -> bool      (* _PyUnicode_IsCaseIgnorable *)
}.

Module Lower.
Section WithTables.
Context {U : UnicodeData}.

Definition capital_sigma : cp := 931.        (* U+03A3 *)
Definition small_final_sigma : cp := 962.    (* U+03C2 *)
Definition small_sigma : cp := 963.          (* U+03C3 *)

(** [handle_capital_sigma]: [before] holds the characters in front of the
    sigma, nearest first; [after] the characters behind it. *)
Definition handle_capital_sigma (before after : str) : cp :=
  let final_sigma :=
    match drop_while IsCaseIgnorable before with
    | [] => false
    | c :: _ => IsCased c
    end in
  let final_sigma :=
    if final_sigma then
      match drop_while IsCaseIgnorable after with
      | [] => true
      | c :: _ => negb (IsCased c)
      end
    else false in
  if final_sigma then small_final_sigma else small_sigma.

Definition lower_ucs4 (before : str) (c : cp) (after : str) : list cp :=
  if c =? capital_sigma then [handle_capital_sigma before after]
  else ToLowerFull c.

Fixpoint do_lower (before s : str) : str :=
  match s with
  | [] => []
  | c :: r => lower_ucs4 before c r ++ do_lower (c :: before) r
  end.

(** [s.lower()] *)
Definition lower (s : str) : str := do_lower [] s.

End WithTables.
End Lower.

(** ** lite_tavily.py, part 2: the query normalizer *)

Definition brand_keyword : str := of_string "tata".
Definition scoping_phrase : str := of_string "Tata Motors dealer showroom ".

Definition _build_search_query {U : UnicodeData} (raw : str) : str :=
  if negb (contains brand_keyword (Lower.lower raw))
  then scoping_phrase ++ raw
  else raw.

(** A case table for running the definitions: ASCII and Latin-1 letters,
    U+0130 (capital I with dot above) and U+212A (Kelvin sign), every
    other character left as it is. *)
Definition is_ascii_upper (c : cp) : bool := (65 <=? c) && (c <=? 90).
Definition is_ascii_letter (c : cp) : bool :=
  is_ascii_upper c || ((97 <=? c) && (c <=? 122)).

Definition sample_ToLowerFull (c : cp) : list cp :=
  if is_ascii_upper c then [c + 32]
  else if (192 <=? c) && (c <=? 222) && negb (c =? 215) then [c + 32]
  else if c =? 304 then [105; 775]
  else if c =? 8490 then [107]
  else [c].

Definition sample_tables : UnicodeData := {|
  ToLowerFull := sample_ToLowerFull;
  IsCased := is_ascii_letter;
  IsCaseIgnorable := fun c => (c =? 39) || (c =? 46) || (c =? 58)
|}.

(** ** Python values, exceptions and dictionaries *)

Module Py.

Inductive exn := TypeError | AttributeError | JSONDecodeError | RecursionError.

(** What a call does: it returns a value or raises. *)
Inductive outcome (A : Type) : Type :=
| Return (a : A)
| Raise (e : exn).
Arguments Return {A} a.
Arguments Raise {A} e.

Definition bind {A B} (m : outcome A) (k : A -> outcome B) : outcome B :=
  match m with
  | Return a => k a
  | Raise e => Raise e
  end.

(** A [float] is kept as the text it was read from: the decimal
    [(-1)^neg * m * 10^e], or one of the constants [json.loads] accepts.
    The pipeline never computes with a float; it only tests one for zero. *)
Inductive pyfloat :=
| FDec (neg : bool) (m : N) (e : Z)
| FNaN
| FInf (neg : bool).

(** The values [json.loads] produces. *)
Inductive pyval :=
| PNone
| PBool (b : bool)
| PInt (z : Z)
| PFloat (f : pyfloat)
| PStr (s : str)
| PList (l : list pyval)
| PDict (d : list (str * pyval)).

(** A [dict] with [str] keys: the items in insertion order, every key
    once. *)
Definition dict := list (str * pyval).

Fixpoint dict_get (d : dict) (k : str) : option pyval :=
  match d with
  | [] => None
  | (k', v) :: r => if str_eqb k' k then Some v else dict_get r k
  end.

(** [d[k] = v]: an existing key keeps its place, a new one goes last. *)
Fixpoint dict_set (d : dict) (k : str) (v : pyval) : dict :=
  match d with
  | [] => [(k, v)]
  | (k', v') :: r =>
      if str_eqb k' k then (k', v) :: r else (k', v') :: dict_set r k v
  end.

(** [dict(pairs)] *)
Definition dict_of_pairs (pairs : list (str * pyval)) : dict :=
  fold_left (fun d kv => dict_set d (fst kv) (snd kv)) pairs [].

(** The nearest binary64 to [m * 10^e] is zero exactly when the decimal
    is at most [2^-1075], half the least subnormal (ties go to even). *)
Definition float_is_zero (f : pyfloat) : bool :=
  match f with
  | FDec _ m e =>
      (m =? 0)
      || ((e <? 0)%Z
          && (Z.of_N m * 2 ^ 1075 <=? 10 ^ (- e))%Z)
  | FNaN | FInf _ => false
  end.

(** [bool(v)] *)
Definition truthy (v : pyval) : bool :=
  match v with
  | PNone => false
  | PBool b => b
  | PInt z => negb (z =? 0)%Z
  | PFloat f => negb (float_is_zero f)
  | PStr s => match s with [] => false | _ => true end
  | PList l => match l with [] => false | _ => true end
  | PDict d => match d with [] => false | _ => true end
  end.

(** [a or b] *)
Definition py_or (a b : pyval) : pyval := if truthy a then a else b.

(** [v.get(k)]: only a [dict] has the method. *)
Definition py_get (v : pyval) (k : str) : outcome pyval :=
  match v with
  | PDict d =>
      Return (match dict_get d k with Some x => x | None => PNone end)
  | _ => Raise AttributeError
  end.

(** [v[:n]]: a [str] or a [list] is cut; a [dict] raises as well
    ([TypeError] for the unhashable slice, [KeyError] from 3.12 on, not
    told apart here). *)
Definition py_slice_to (n : nat) (v : pyval) : outcome pyval :=
  match v with
  | PStr s => Return (PStr (firstn n s))
  | PList l => Return (PList (firstn n l))
  | _ => Raise TypeError
  end.

(** [for r in v]: the elements a loop over [v] sees. *)
Definition py_iter (v : pyval) : outcome (list pyval) :=
  match v with
  | PList l => Return l
  | PStr s => Return (List.map (fun c => PStr [c]) s)
  | PDict d => Return (List.map (fun kv => PStr (fst kv)) d)
  | _ => Raise TypeError
  end.

(** [v[k] = x] with a [str] key: only a [dict] takes it. *)
Definition py_setitem (v : pyval) (k : str) (x : pyval) : outcome pyval :=
  match v with
  | PDict d => Return (PDict (dict_set d k x))
  | _ => Raise TypeError
  end.

(** [isinstance(v, dict)] *)
Definition is_dict (v : pyval) : bool :=
  match v with PDict _ => true | _ => false end.

(** A comprehension [[f(x) for x in l]], left to right, stopping at the
    first exception. *)
Fixpoint map_m {A B} (f : A -> outcome B) (l : list A) : outcome (list B) :=
  match l with
  | [] => Return []
  | x :: r =>
      bind (f x) (fun y => bind (map_m f r) (fun ys => Return (y :: ys)))
  end.

End Py.
Import Py.

Notation "x <- m ;; k" := (Py.bind m (fun x => k))
  (at level 61, m at next level, right associativity).

(** ** [json.loads] *)

(** The decoder of the standard library ([json.decoder], [json.scanner]),
    on the text that is left rather than on an index into it.  Interpreter
    limits (recursion depth, the digit limit of [int]) are not modelled. *)
Module Json.

Inductive parse (A : Type) : Type :=
| Parsed (a : A) (rest : str)
| Malformed
| Exhausted.
Arguments Parsed {A} a rest.
Arguments Malformed {A}.
Arguments Exhausted {A}.

(** [WHITESPACE = [ \t\n\r]*] *)
Definition is_ws (c : cp) : bool :=
  (c =? 32) || (c =? 9) || (c =? 10) || (c =? 13).
Definition skip_ws (s : str) : str := drop_while is_ws s.

Definition is_digit (c : cp) : bool := (48 <=? c) && (c <=? 57).

Definition hex_digit (c : cp) : option N :=
  if is_digit c then Some (c - 48)
  else if (65 <=? c) && (c <=? 70) then Some (c - 55)
  else if (97 <=? c) && (c <=? 102) then Some (c - 87)
  else None.

(** [_decode_uXXXX] *)
Definition hex4 (a b c d : cp) : option N :=
  match hex_digit a, hex_digit b, hex_digit c, hex_digit d with
  | Some x, Some y, Some z, Some w => Some (((x * 16 + y) * 16 + z) * 16 + w)
  | _, _, _, _ => None
  end.

(** [BACKSLASH] *)
Definition simple_escape (e : cp) : option cp :=
  if e =? 34 then Some 34            (* the double quote *)
  else if e =? 92 then Some 92       (* \\ *)
  else if e =? 47 then Some 47       (* /  *)
  else if e =? 98 then Some 8        (* b  *)
  else if e =? 102 then Some 12      (* f  *)
  else if e =? 110 then Some 10      (* n  *)
  else if e =? 114 then Some 13      (* r  *)
  else if e =? 116 then Some 9       (* t  *)
  else None.

(** What [py_scanstring] appends: a character of the text, or the number
    of a [\uXXXX] escape. *)
Inductive piece := Lit (c : cp) | Esc (u : N).

(** The body of a string, after its opening quote, up to the closing one
    ([strict] mode: a control character ends the parse). *)
Fixpoint scan_pieces (s : str) (acc : list piece) : parse (list piece) :=
  match s with
  | [] => Malformed
  | c :: s1 =>
      if c =? 34 then Parsed (rev acc) s1
      else if c =? 92 then
        match s1 with
        | [] => Malformed
        | e :: s2 =>
            if e =? 117 then
              match s2 with
              | h1 :: h2 :: h3 :: h4 :: s3 =>
                  match hex4 h1 h2 h3 h4 with
                  | Some u => scan_pieces s3 (Esc u :: acc)
                  | None => Malformed
                  end
              | _ => Malformed
              end
            else
              match simple_escape e with
              | Some ch => scan_pieces s2 (Lit ch :: acc)
              | None => Malformed
              end
        end
      else if c <=? 31 then Malformed
      else scan_pieces s1 (Lit c :: acc)
  end.

(** An escaped high surrogate directly followed by an escaped low one is
    one character; any other escape is [chr] of its number. *)
Fixpoint join_surrogates (l : list piece) : str :=
  match l with
  | [] => []
  | Lit c :: r => c :: join_surrogates r
  | Esc u :: r =>
      match r with
      | Esc u2 :: r' =>
          if (55296 <=? u) && (u <=? 56319) && (56320 <=? u2) && (u2 <=? 57343)
          then (65536 + N.lor (N.shiftl (u - 55296) 10) (u2 - 56320))
               :: join_surrogates r'
          else u :: join_surrogates r
      | _ => u :: join_surrogates r
      end
  end.

(** [scanstring(s, end, strict)] *)
Definition scanstring (s : str) : parse str :=
  match scan_pieces s [] with
  | Parsed ps rest => Parsed (join_surrogates ps) rest
  | Malformed => Malformed
  | Exhausted => Exhausted
  end.

(** The leading digits of a text and what follows them. *)
Fixpoint span_digits (s : str) : list cp * str :=
  match s with
  | [] => ([], [])
  | c :: r =>
      if is_digit c then let (ds, r') := span_digits r in (c :: ds, r')
      else ([], s)
  end.

Definition digits_value (ds : list cp) : N :=
  fold_left (fun n c => n * 10 + (c - 48)) ds 0.

(** [NUMBER_RE]: an optional minus and then [0], or a digit from 1 to 9
    and any number of digits; optionally a dot and at least one digit;
    optionally [e] or [E], an optional sign and at least one digit. *)
Definition match_sign (s : str) : bool * str :=
  match s with
  | 45 :: r => (true, r)
  | _ => (false, s)
  end.

Definition match_integer (s : str) : option (list cp * str) :=
  match s with
  | [] => None
  | c :: r =>
      if c =? 48 then Some ([c], r)
      else if is_digit c then
        let (ds, r') := span_digits r in Some (c :: ds, r')
      else None
  end.

Definition match_frac (s : str) : option (list cp) * str :=
  match s with
  | 46 :: r =>
      match span_digits r with
      | ([], _) => (None, s)
      | (ds, r') => (Some ds, r')
      end
  | _ => (None, s)
  end.

Definition match_exp (s : str) : option Z * str :=
  match s with
  | e :: r =>
      if (e =? 101) || (e =? 69) then
        let (neg, r0) :=
          match r with
          | 45 :: r1 => (true, r1)
          | 43 :: r1 => (false, r1)
          | _ => (false, r)
          end in
        match span_digits r0 with
        | ([], _) => (None, s)
        | (ds, r') =>
            let v := Z.of_N (digits_value ds) in
            (Some (if neg then (- v)%Z else v), r')
        end
      else (None, s)
  | [] => (None, s)
  end.

(** What matched is converted by [int] when it has neither fraction nor
    exponent, else by [float]. *)
Definition number_value (neg : bool) (ids : list cp)
    (frac : option (list cp)) (exp : option Z) : pyval :=
  match frac, exp with
  | None, None =>
      let v := Z.of_N (digits_value ids) in
      PInt (if neg then (- v)%Z else v)
  | _, _ =>
      let fds := match frac with Some d => d | None => [] end in
      let e := match exp with Some e => e | None => 0%Z end in
      PFloat (FDec neg (digits_value (ids ++ fds))
                   (e - Z.of_nat (List.length fds))%Z)
  end.

Definition match_number (s : str) : option (pyval * str) :=
  let (neg, s0) := match_sign s in
  match match_integer s0 with
  | None => None
  | Some (ids, s1) =>
      let (frac, s2) := match_frac s1 in
      let (exp, s3) := match_exp s2 in
      Some (number_value neg ids frac exp, s3)
  end.

(** [scan_once], [JSONArray] and [JSONObject].  The loops of the array and
    of the object are the two auxiliary functions; [fuel] bounds the calls
    and [json_loads] gives enough of it. *)
Fixpoint scan_once (fuel : nat) (s : str) {struct fuel} : parse pyval :=
  match fuel with
  | O => Exhausted
  | S f =>
      match s with
      | [] => Malformed
      | c :: s1 =>
          if c =? 34 then
            match scanstring s1 with
            | Parsed k r => Parsed (PStr k) r
            | Malformed => Malformed
            | Exhausted => Exhausted
            end
          else if c =? 123 then
            match skip_ws s1 with
            | 125 :: r => Parsed (PDict []) r
            | 34 :: r => object_loop f r []
            | _ => Malformed
            end
          else if c =? 91 then
            match skip_ws s1 with
            | 93 :: r => Parsed (PList []) r
            | s' => array_loop f s' []
            end
          else
            match strip_prefix (of_string "null") s with
            | Some r => Parsed PNone r
            | None =>
            match strip_prefix (of_string "true") s with
            | Some r => Parsed (PBool true) r
            | None =>
            match strip_prefix (of_string "false") s with
            | Some r => Parsed (PBool false) r
            | None =>
            match match_number s with
            | Some (v, r) => Parsed v r
            | None =>
            match strip_prefix (of_string "NaN") s with
            | Some r => Parsed (PFloat FNaN) r
            | None =>
            match strip_prefix (of_string "Infinity") s with
            | Some r => Parsed (PFloat (FInf false)) r
            | None =>
            match strip_prefix (of_string "-Infinity") s with
            | Some r => Parsed (PFloat (FInf true)) r
            | None => Malformed
            end end end end end end end
      end
  end

with array_loop (fuel : nat) (s : str) (acc : list pyval) {struct fuel}
  : parse pyval :=
  match fuel with
  | O => Exhausted
  | S f =>
      match scan_once f s with
      | Parsed v r =>
          match skip_ws r with
          | 93 :: r2 => Parsed (PList (rev (v :: acc))) r2
          | 44 :: r2 => array_loop f (skip_ws r2) (v :: acc)
          | _ => Malformed
          end
      | Malformed => Malformed
      | Exhausted => Exhausted
      end
  end

with object_loop (fuel : nat) (s : str) (pairs : list (str * pyval))
  {struct fuel} : parse pyval :=
  match fuel with
  | O => Exhausted
  | S f =>
      match scanstring s with
      | Parsed key s1 =>
          match skip_ws s1 with
          | 58 :: s2 =>
              match scan_once f (skip_ws s2) with
              | Parsed v s3 =>
                  match skip_ws s3 with
                  | 125 :: r =>
                      Parsed (PDict (dict_of_pairs (rev ((key, v) :: pairs)))) r
                  | 44 :: r =>
                      match skip_ws r with
                      | 34 :: r' => object_loop f r' ((key, v) :: pairs)
                      | _ => Malformed
                      end
                  | _ => Malformed
                  end
              | Malformed => Malformed
              | Exhausted => Exhausted
              end
          | _ => Malformed
          end
      | Malformed => Malformed
      | Exhausted => Exhausted
      end
  end.

Definition enough_fuel (s : str) : nat := 2 * List.length s + 1.

(** [json.loads(s)] for a [str]: a byte order mark is refused, the value
    is read between optional whitespace, and nothing may follow it. *)
Definition json_loads (s : str) : outcome pyval :=
  if startswith [65279] s then Raise JSONDecodeError
  else
    match scan_once (enough_fuel s) (skip_ws s) with
    | Parsed v r =>
        match skip_ws r with
        | [] => Return v
        | _ => Raise JSONDecodeError
        end
    | Malformed => Raise JSONDecodeError
    | Exhausted => Raise RecursionError
    end.

End Json.

(** ** lite_tavily.py, part 3: parsing, retrieval and extraction *)

(** [except Exception] covers every exception of the decoder. *)
Definition _safe_json_loads (s : str) : pyval :=
  match Json.json_loads s with
  | Return v => v
  | Raise _ => PNone
  end.

(** [tavily_search], given the response [res] of the provider's client:
    [res.get('results', []) if isinstance(res, dict) else []]. *)
Definition tavily_search (res : pyval) : pyval :=
  match res with
  | PDict d =>
      match dict_get d (of_string "results") with
      | Some v => v
      | None => PList []
      end
  | _ => PList []
  end.

Definition k_title : str := of_string "title".
Definition k_url : str := of_string "url".
Definition k_content : str := of_string "content".
Definition k_mode : str := of_string "mode".
Definition k_query : str := of_string "query".
Definition k_response : str := of_string "response".
Definition k_sources : str := of_string "sources".
Definition k_sources_used : str := of_string "sources_used".

(** One item of [compact]. *)
Definition compact_result (r : pyval) : outcome pyval :=
  title <- py_get r k_title ;;
  url <- py_get r k_url ;;
  content <- py_get r k_content ;;
  content <- py_slice_to 1200 (py_or content (PStr [])) ;;
  Return (PDict [(k_title, title); (k_url, url); (k_content, content)]).

(** [compact = [... for r in web_results]] *)
Definition compact_results (web_results : pyval) : outcome (list pyval) :=
  rs <- py_iter web_results ;;
  map_m compact_result rs.

(** [[{title, url} for s in compact if s.get('url')]] *)
Fixpoint sources_used_of (compact : list pyval) : outcome (list pyval) :=
  match compact with
  | [] => Return []
  | s :: r =>
      u <- py_get s k_url ;;
      if truthy u then
        title <- py_get s k_title ;;
        url <- py_get s k_url ;;
        rest <- sources_used_of r ;;
        Return (PDict [(k_title, title); (k_url, url)] :: rest)
      else sources_used_of r
  end.

(** [groq_structured_answer].  The chat completion is the external
    collaborator: [reply] is the [message.content] of its first choice. *)
Definition groq_structured_answer
    (user_query : str) (web_results : pyval) (reply : option str)
  : outcome pyval :=
  compact <- compact_results web_results ;;
  let text := or_empty reply in
  let text := _strip_code_fences (Some text) in
  let parsed := _safe_json_loads text in
  match parsed with
  | PNone =>
      Return (PDict [(k_mode, PStr (of_string "text_fallback"));
                     (k_query, PStr user_query);
                     (k_response, PStr text);
                     (k_sources, PList compact)])
  | _ =>
      parsed <- py_setitem parsed k_mode (PStr (of_string "structured")) ;;
      used <- sources_used_of compact ;;
      py_setitem parsed k_sources_used (PList used)
  end.

(** ** The vocabulary of the specification *)

Definition line_feed : str := [10].

(** A text inside a fenced block, with and without the language tag. *)
Definition wrap_json (t : str) : str :=
  Re.fence ++ of_string "json" ++ line_feed ++ t ++ line_feed ++ Re.fence.
Definition wrap_plain (t : str) : str :=
  Re.fence ++ line_feed ++ t ++ line_feed ++ Re.fence.

(** [c] is the lower-case ASCII letter [k] or its capital. *)
Definition same_letter (k c : cp) : Prop := c = k \/ c + 32 = k.

(** [raw] contains the word [kw] (given in lower case) in some mix of
    letter cases. *)
Definition mentions (kw raw : str) : Prop :=
  exists pre w post, raw = pre ++ w ++ post /\ Forall2 same_letter kw w.


(** What the proofs about [str.lower()] use of the Unicode tables: they
    agree with ASCII on ASCII, map no character to the empty string, and
    map no character outside ASCII to text that has a [t] or an [a]. *)
Record tables_ok (U : UnicodeData) : Prop := {
  lower_ascii_upper : forall c, 65 <= c <= 90 -> ToLowerFull c = [c + 32];
  lower_ascii_other :
    forall c, c < 128 -> ~ (65 <= c <= 90) -> ToLowerFull c = [c];
  lower_beyond_ascii :
    forall c, 128 <= c ->
      ToLowerFull c <> [] /\ ~ In 116 (ToLowerFull c) /\ ~ In 97 (ToLowerFull c)
}.

(** The two records the extractor can return. *)
Definition has_mode (m : string) (r : pyval) : Prop :=
  py_get r k_mode = Return (PStr (of_string m)).
Definition is_structured (r : pyval) : Prop := has_mode "structured" r.
Definition is_fallback (r : pyval) : Prop := has_mode "text_fallback" r.

Definition fallback_record (user_query text : str) (compact : list pyval)
  : pyval :=
  PDict [(k_mode, PStr (of_string "text_fallback"));
         (k_query, PStr user_query);
         (k_response, PStr text);
         (k_sources, PList compact)].

(** The title and url of a compacted result, and the test that keeps it. *)
Definition title_url (s : pyval) : pyval :=
  match s with
  | PDict d =>
      PDict [(k_title, match dict_get d k_title with Some x => x | None => PNone end);
             (k_url, match dict_get d k_url with Some x => x | None => PNone end)]
  | _ => PNone
  end.

Definition url_of (s : pyval) : pyval :=
  match s with
  | PDict d => match dict_get d k_url with Some x => x | None => PNone end
  | _ => PNone
  end.

(** A url is non-empty when it is there, not null and not the empty
    string (for a value that is no string: when it is true). *)
Definition has_url (s : pyval) : bool := truthy (url_of s).




(** The provider's response has the expected shape: a mapping with a
    [results] field. *)
Definition has_results_field (res : pyval) : Prop :=
  exists d v, res = PDict d /\ dict_get d (of_string "results") = Some v.


(** Whitespace only, and nothing to strip on either side. *)
Definition spaces (ws : str) : Prop := Forall (fun c => is_space c = true) ws.
Definition trimmed (s : str) : Prop :=
  lstrip s = s /\ lstrip (rev s) = rev s.

(** The decoder with [fuel] consumes input whenever it parses, and does
    not stop for lack of fuel on a text short enough. *)
Definition progress_at (fuel : nat) : Prop :=
  (forall s v r, Json.scan_once fuel s = Json.Parsed v r ->
                 (List.length r < List.length s)%nat)
  /\ (forall s acc v r, Json.array_loop fuel s acc = Json.Parsed v r ->
                        (List.length r < List.length s)%nat)
  /\ (forall s pairs v r, Json.object_loop fuel s pairs = Json.Parsed v r ->
                          (List.length r < List.length s)%nat).

Definition fuelled_at (fuel : nat) : Prop :=
  (forall s, (2 * List.length s < fuel)%nat -> Json.scan_once fuel s <> Json.Exhausted)
  /\ (forall s acc, (2 * List.length s + 1 < fuel)%nat ->
                    Json.array_loop fuel s acc <> Json.Exhausted)
  /\ (forall s pairs, (2 * List.length s + 1 < fuel)%nat ->
                      Json.object_loop fuel s pairs <> Json.Exhausted).

(** The model's text as the extractor parses it: [content or ''], with
    the fences stripped. *)
Definition cleaned_text (reply : option str) : str :=
  _strip_code_fences (Some (or_empty reply)).

(** ** Sample inputs *)

Definition sample_query : str := of_string "showroom near Andheri".

Definition sample_results : pyval :=
  PList
    [PDict [(k_title, PStr (of_string "Tata Motors Andheri"));
            (k_url, PStr (of_string "https://example.com/andheri"));
            (k_content, PStr (of_string "Showroom, Andheri West, Mumbai"));
            (of_string "score", PFloat (FDec false 91 (-2)))];
     PDict [(k_title, PStr (of_string "Dealer list")); (k_url, PStr [])];
     PDict [(k_title, PNone);
            (k_url, PStr (of_string "https://example.com/pune"));
            (k_content, PNone)]].

Definition prose_reply : option str :=
  Some (quoted "Here is the info: {'dealers': []}").



Definition array_reply : option str := Some (of_string "[]").

Definition error_response : pyval :=
  PDict [(of_string "detail", PStr (of_string "Unauthorized"))].

(** ** lite_tavily.py, part 4: the calls to the two providers *)

(** The arguments [tavily_search] passes to [tavily_client.search]. *)
Record search_request := {
  query : str;
  search_depth : str;
  max_results : nat;
  include_answer : bool;
  include_raw_content : bool
}.

(** The search client: it returns the provider's response or raises. *)
Definition search_client := search_request -> outcome pyval.

(** [tavily_search(user_query, max_results)] with its client call. *)
Definition tavily_search_call
    (search : search_client) (user_query : str) (n : nat) : outcome pyval :=
  res <- search {| query := user_query;
                   search_depth := of_string "advanced";
                   max_results := n;
                   include_answer := false;
                   include_raw_content := false |} ;;
  Return (tavily_search res).

Definition GROQ_MODEL : str := of_string "llama-3.3-70b-versatile".

(** What the chat completion is asked: the pinned model, and the two
    values the user prompt is formatted from (the query and [compact]).
    The prompt text itself goes through [json.dumps] and stays outside. *)
Record chat_request := {
  model : str;
  prompt_query : str;
  prompt_results : list pyval
}.

(** The chat client: the [message.content] of the first choice, or an
    exception. *)
Definition chat_client := chat_request -> outcome (option str).

(** [groq_structured_answer(user_query, web_results)] with its client
    call, which comes after the results are compacted. *)
Definition groq_structured_answer_call
    (chat : chat_client) (user_query : str) (web_results : pyval)
  : outcome pyval :=
  compact <- compact_results web_results ;;
  reply <- chat {| model := GROQ_MODEL;
                   prompt_query := user_query;
                   prompt_results := compact |} ;;
  groq_structured_answer user_query web_results reply.

(** ** lite_tavily.py, part 5: the Streamlit script *)

Module Ui.

(** An f-string, kept as its parts: literal text and interpolated values. *)
Inductive fpart := FText (s : str) | FValue (v : pyval).

(** The calls the script makes to Streamlit, in order; a [with] block
    holds the calls made inside it. *)
Inductive widget :=
| StPageConfig (page_title page_icon : str)
| StTitle (s : str)
| StTextInput (label placeholder : str)
| StButton (label : str)
| StError (s : str)
| StWarning (v : pyval)
| StInfo (s : str)
| StSubheader (v : pyval)
| StWrite (args : list pyval)
| StMarkdown (body : list fpart)
| StJson (v : pyval)
| StColumns (n : nat)
| StColumn (i : nat) (body : list widget)
| StContainer (body : list widget)
| StExpander (label : str) (body : list widget)
| StSpinner (label : str) (body : list widget).

Inductive failure := Raised (e : exn) | KeyError (k : str).

(** How a piece of the script ends: it goes on, [st.stop()] halts the
    run, or an exception leaves it. *)
Inductive step (A : Type) : Type :=
| Next (a : A)
| Stop
| Fail (f : failure).
Arguments Next {A} a.
Arguments Stop {A}.
Arguments Fail {A} f.

(** The calls made so far, and how it ended. *)
Definition ui (A : Type) : Type := (list widget * step A)%type.

Definition ret {A} (a : A) : ui A := ([], Next a).
Definition emit (w : widget) : ui unit := ([w], Next tt).
Definition stop {A} : ui A := ([], Stop).
Definition lift {A} (o : outcome A) : ui A :=
  ([], match o with Return a => Next a | Raise e => Fail (Raised e) end).

Definition ui_bind {A B} (m : ui A) (k : A -> ui B) : ui B :=
  match m with
  | (w, Next a) => let (w', r) := k a in (w ++ w', r)
  | (w, Stop) => (w, Stop)
  | (w, Fail f) => (w, Fail f)
  end.

(** [with block: body] *)
Definition within {A} (block : list widget -> widget) (body : ui A) : ui A :=
  let (w, r) := body in ([block w], r).

End Ui.
Import Ui.

Notation "x <~ m ;; k" := (Ui.ui_bind m (fun x => k))
  (at level 61, m at next level, right associativity).
Notation "m >>> k" := (Ui.ui_bind m (fun _ => k))
  (at level 61, right associativity).

Module App.

(** [for x in l: f(x)] *)
Fixpoint for_each {A} (f : A -> ui unit) (l : list A) : ui unit :=
  match l with
  | [] => ret tt
  | x :: r => f x >>> for_each f r
  end.

(** [v.get(k, default)] *)
Definition py_get_default (v : pyval) (k : str) (default : pyval)
  : outcome pyval :=
  match v with
  | PDict d =>
      Return (match dict_get d k with Some x => x | None => default end)
  | _ => Raise AttributeError
  end.

(** [v[k]] with a [str] key, on a [dict]. *)
Definition py_getitem (v : pyval) (k : str) : ui pyval :=
  match v with
  | PDict d =>
      match dict_get d k with
      | Some x => ret x
      | None => ([], Fail (KeyError k))
      end
  | _ => ([], Fail (Raised TypeError))
  end.

(** [v == s] for a [str] literal [s] *)
Definition py_eq_str (v : pyval) (s : str) : bool :=
  match v with
  | PStr x => str_eqb x s
  | _ => false
  end.

Definition label_address : str := 128205 :: of_string " Address:".
Definition label_phone : str := 128222 :: of_string " Phone:".
Definition label_hours : str := 128338 :: of_string " Hours:".
Definition label_city : str := 127961 :: of_string " City:".
Definition label_area : str := 128204 :: of_string " Area:".
Definition label_confidence : str := 128270 :: of_string " Confidence:".

(** [st.write(label, dealer.get(key))] *)
Definition write_field (dealer : pyval) (label : str) (key : string)
  : ui unit :=
  v <~ lift (py_get dealer (of_string key)) ;;
  emit (StWrite [PStr label; v]).

(** The body of the loop over [dealers]. *)
Definition render_dealer (dealer : pyval) : ui unit :=
  within StContainer (
    name <~ lift (py_get dealer (of_string "name")) ;;
    emit (StSubheader name) >>>
    emit (StColumns 2) >>>
    within (StColumn 1) (
      write_field dealer label_address "address" >>>
      write_field dealer label_phone "phone" >>>
      write_field dealer label_hours "hours") >>>
    within (StColumn 2) (
      write_field dealer label_city "city" >>>
      write_field dealer label_area "area" >>>
      write_field dealer label_confidence "confidence") >>>
    website <~ lift (py_get dealer (of_string "website")) ;;
    (if truthy website then
       website <~ lift (py_get dealer (of_string "website")) ;;
       emit (StMarkdown [FText (of_string "[Visit Website](");
                         FValue website;
                         FText (of_string ")")])
     else ret tt) >>>
    emit (StMarkdown [FText (of_string "---")])).

Definition k_follow_up : str := of_string "follow_up_question".
Definition k_dealers : str := of_string "dealers".

(** The display of [response], from [if response.get('mode') == ...] on. *)
Definition render_response (response : pyval) : ui unit :=
  mode <~ lift (py_get response k_mode) ;;
  if py_eq_str mode (of_string "structured") then
    follow_up <~ lift (py_get response k_follow_up) ;;
    (if truthy follow_up then
       question <~ py_getitem response k_follow_up ;;
       emit (StWarning question)
     else ret tt) >>>
    dealers <~ lift (py_get_default response k_dealers (PList [])) ;;
    (if negb (truthy dealers) then
       emit (StInfo (of_string "No dealers found."))
     else
       ds <~ lift (py_iter dealers) ;;
       for_each render_dealer ds) >>>
    within (StExpander (of_string "Sources Used")) (
      used <~ lift (py_get response k_sources_used) ;;
      emit (StJson used))
  else
    emit (StWarning (PStr (of_string "Model returned unstructured response."))).

(** The two keys read from the environment by [os.getenv]. *)
Record environment := {
  TAVILY_API_KEY : option str;
  GROQ_API_KEY : option str
}.

(** [not KEY]: the variable is unset or empty. *)
Definition key_missing (k : option str) : bool :=
  match k with
  | Some (_ :: _) => false
  | _ => true
  end.

Definition car : cp := 128663.

(** The page, down to the button. *)
Definition page_header : ui unit :=
  emit (StPageConfig (of_string "Tata Dealer Finder") [car]) >>>
  emit (StTitle (car :: of_string " Tata Motors Dealer Finder (Tavily + Groq)")) >>>
  emit (StWrite [PStr (of_string
         "Find the nearest Tata Motors dealership anywhere in India.")]) >>>
  emit (StTextInput (of_string "Enter your query")
                    (of_string "Nearest Tata dealer in Wakad Pune")) >>>
  emit (StButton (of_string "Find Dealer")).

(** One run of the script.  [user_query] is what [st.text_input] returns
    and [clicked] what [st.button] returns; the two clients stand for
    the objects built from the keys. *)
Definition script {U : UnicodeData}
    (env : environment) (search : search_client) (chat : chat_client)
    (user_query : str) (clicked : bool) : ui unit :=
  (if key_missing (TAVILY_API_KEY env) then
     emit (StError (of_string "Missing TAVILY_API_KEY in .env")) >>> stop
   else ret tt) >>>
  (if key_missing (GROQ_API_KEY env) then
     emit (StError (of_string "Missing GROQ_API_KEY in .env")) >>> stop
   else ret tt) >>>
  page_header >>>
  if clicked && truthy (PStr user_query) then
    response <~ within (StSpinner (of_string "Searching dealers...")) (
      let search_q := _build_search_query user_query in
      results <~ lift (tavily_search_call search search_q 6) ;;
      lift (groq_structured_answer_call chat user_query results)) ;;
    render_response response
  else ret tt.

End App.

(** ** More vocabulary *)

(** [p] is a contiguous part of [s]. *)
Definition is_infix_of (p s : str) : Prop := exists a b, s = a ++ p ++ b.

(** A search result the comprehension can compact: a dictionary whose
    content is absent, false, a string or a list. *)
Definition sliceable (v : pyval) : bool :=
  match py_or v (PStr []) with
  | PStr _ | PList _ => true
  | _ => false
  end.

Definition compactable (r : pyval) : bool :=
  match r with
  | PDict d =>
      sliceable (match dict_get d k_content with Some x => x | None => PNone end)
  | _ => false
  end.

(** The size of a compacted content. *)
Definition content_size (s : pyval) : option nat :=
  match s with
  | PDict [(_, _); (_, _); (_, PStr c)] => Some (List.length c)
  | PDict [(_, _); (_, _); (_, PList c)] => Some (List.length c)
  | _ => None
  end.

(** The keys of a dictionary, in order. *)
Definition keys_of (s : pyval) : list str :=
  match s with
  | PDict d => List.map fst d
  | _ => []
  end.

(** What the script asks the search provider. *)
Definition the_search_request {U : UnicodeData} (user_query : str)
  : search_request :=
  {| query := _build_search_query user_query;
     search_depth := of_string "advanced";
     max_results := 6;
     include_answer := false;
     include_raw_content := false |}.

(** The containers of a list of calls. *)
Definition is_container (w : widget) : bool :=
  match w with StContainer _ => true | _ => false end.

(** A value a [for] loop cannot run over. *)
Definition not_iterable (v : pyval) : bool :=
  match v with
  | PNone | PBool _ | PInt _ | PFloat _ => true
  | _ => false
  end.

(** What a compacted result keeps of the search result it comes from. *)
Definition compacted_from (r s : pyval) : Prop :=
  keys_of s = [k_title; k_url; k_content]
  /\ py_get s k_title = py_get r k_title
  /\ py_get s k_url = py_get r k_url
  /\ (exists n, content_size s = Some n /\ (n <= 1200)%nat)
  /\ (forall c, py_get r k_content = Return (PStr c) ->
                py_get s k_content = Return (PStr (firstn 1200 c))).

(** [d.get(key)] on a dictionary known to be one. *)
Definition dget (d : dict) (key : string) : pyval :=
  match dict_get d (of_string key) with Some x => x | None => PNone end.

(** The pieces of the display. *)
Definition website_link (w : pyval) : widget :=
  StMarkdown [FText (of_string "[Visit Website]("); FValue w;
              FText (of_string ")")].
Definition rule : widget := StMarkdown [FText (of_string "---")].
Definition no_dealers_note : widget := StInfo (of_string "No dealers found.").
Definition follow_up_part (d : dict) : list widget :=
  if truthy (dget d "follow_up_question")
  then [StWarning (dget d "follow_up_question")] else [].
Definition sources_expander (d : dict) : widget :=
  StExpander (of_string "Sources Used") [StJson (dget d "sources_used")].
Definition header_widgets : list widget := fst App.page_header.
Definition spinner (body : list widget) : widget :=
  StSpinner (of_string "Searching dealers...") body.

(** What the container of a dealer holds between the name and the rule. *)
Definition card_inner (d : dict) : list widget :=
  [StColumns 2;
   StColumn 1 [StWrite [PStr App.label_address; dget d "address"];
               StWrite [PStr App.label_phone; dget d "phone"];
               StWrite [PStr App.label_hours; dget d "hours"]];
   StColumn 2 [StWrite [PStr App.label_city; dget d "city"];
               StWrite [PStr App.label_area; dget d "area"];
               StWrite [PStr App.label_confidence; dget d "confidence"]]]
  ++ (if truthy (dget d "website")
      then [website_link (dget d "website")] else []).

(** The value of [dealers] the display works with: [response.get] with
    the empty list as default. *)
Definition dealers_of (d : dict) : pyval :=
  match dict_get d App.k_dealers with Some x => x | None => PList [] end.

(** [w] is the container of [dealer]: it starts with the subheader of
    the dealer's name and ends with the rule. *)
Definition shows_dealer (dealer : pyval) (w : widget) : Prop :=
  exists name inner,
    py_get dealer (of_string "name") = Return name
    /\ w = StContainer (StSubheader name :: inner ++ [rule]).

(** Both keys are set. *)
Definition keys_present (env : App.environment) : Prop :=
  App.key_missing (App.TAVILY_API_KEY env) = false
  /\ App.key_missing (App.GROQ_API_KEY env) = false.

(** What the script asks the model, given the compacted results. *)
Definition the_chat_request (user_query : str) (compact : list pyval)
  : chat_request :=
  {| model := GROQ_MODEL; prompt_query := user_query;
     prompt_results := compact |}.

Definition some_tables_env : App.environment :=
  {| App.TAVILY_API_KEY := Some (of_string "tvly-key");
     App.GROQ_API_KEY := Some (of_string "gsk-key") |}.

(** * Properties *)

(** ** Whitespace stripping *)

Module StripFacts.

Lemma drop_while_le (p : cp -> bool) (s : str) :
  (List.length (drop_while p s) <= List.length s)%nat.
Proof.
  induction s as [|c s IH]; cbn [drop_while]; [lia|].
  destruct (p c); cbn [List.length]; lia.
Qed.

Lemma drop_while_spaces (ws s : str) :
  spaces ws -> drop_while is_space (ws ++ s) = drop_while is_space s.
Proof.
  induction 1 as [|c ws Hc _ IH]; simpl; [reflexivity|].
  now rewrite Hc.
Qed.

Lemma drop_while_split (s : str) :
  exists ws, s = ws ++ drop_while is_space s /\ spaces ws.
Proof.
  induction s as [|c r [ws [E Hws]]]; simpl.
  - exists []. split; [reflexivity | constructor].
  - destruct (is_space c) eqn:Hc.
    + exists (c :: ws). split; [simpl; congruence | now constructor].
    + exists []. split; [reflexivity | constructor].
Qed.

Lemma drop_while_head (s r : str) (c : cp) :
  drop_while is_space s = c :: r -> is_space c = false.
Proof.
  induction s as [|a s IH]; simpl; [discriminate|].
  destruct (is_space a) eqn:Ha; [exact IH|].
  intros E. injection E as -> _. exact Ha.
Qed.

Lemma drop_while_keeps (c : cp) (r : str) :
  is_space c = false -> drop_while is_space (c :: r) = c :: r.
Proof. intros H. simpl. now rewrite H. Qed.

Lemma drop_while_idem (s : str) :
  drop_while is_space (drop_while is_space s) = drop_while is_space s.
Proof.
  destruct (drop_while is_space s) as [|c r] eqn:E; [reflexivity|].
  apply drop_while_keeps. exact (drop_while_head _ _ _ E).
Qed.

Lemma spaces_rev (ws : str) : spaces ws -> spaces (rev ws).
Proof. apply Forall_rev. Qed.

Lemma spaces_app (a b : str) : spaces a -> spaces b -> spaces (a ++ b).
Proof. intros Ha Hb. apply Forall_app. now split. Qed.

Lemma strip_trimmed (s : str) : trimmed (strip s).
Proof.
  unfold trimmed, strip, rstrip, lstrip. split; [apply drop_while_idem|].
  set (a := drop_while is_space (rev s)).
  destruct (drop_while_split (rev a)) as [ws [E _]].
  set (b := drop_while is_space (rev a)) in *.
  assert (Ea : a = rev b ++ rev ws).
  { rewrite <- rev_app_distr, <- E. symmetry. apply rev_involutive. }
  destruct (rev b) as [|c r] eqn:Eb; [reflexivity|].
  apply drop_while_keeps.
  assert (Ha : drop_while is_space (rev s) = c :: r ++ rev ws) by exact Ea.
  exact (drop_while_head _ _ _ Ha).
Qed.

Lemma trimmed_strip (s : str) : trimmed s -> strip s = s.
Proof.
  intros [Hl Hr]. unfold strip, rstrip.
  unfold lstrip in Hr. rewrite Hr, rev_involutive. exact Hl.
Qed.

Lemma strip_split (s : str) :
  exists ws1 ws2, s = ws1 ++ strip s ++ ws2 /\ spaces ws1 /\ spaces ws2.
Proof.
  unfold strip, rstrip, lstrip.
  destruct (drop_while_split (rev s)) as [w2 [E2 H2]].
  set (a := drop_while is_space (rev s)) in *.
  destruct (drop_while_split (rev a)) as [w1 [E1 H1]].
  exists w1, (rev w2). split; [|split; [exact H1 | now apply spaces_rev]].
  rewrite app_assoc, <- E1, <- rev_app_distr, <- E2.
  symmetry. apply rev_involutive.
Qed.

(** A text that starts and ends with something that is no whitespace. *)
Lemma trimmed_ends (a z : cp) (m : str) :
  is_space a = false -> is_space z = false -> trimmed (a :: m ++ [z]).
Proof.
  intros Ha Hz. split.
  - now apply drop_while_keeps.
  - change (a :: m ++ [z]) with ((a :: m) ++ [z]).
    rewrite rev_app_distr. simpl rev at 1. simpl app at 1.
    now apply drop_while_keeps.
Qed.

Lemma trimmed_nil : trimmed [].
Proof. split; reflexivity. Qed.

Lemma trimmed_head (c : cp) (r : str) : trimmed (c :: r) -> is_space c = false.
Proof. intros [H _]. exact (drop_while_head _ _ _ H). Qed.

End StripFacts.

(** ** The fence stripper *)

Module FenceFacts.
Import StripFacts.

Lemma strip_prefix_app (p r : str) : strip_prefix p (p ++ r) = Some r.
Proof.
  induction p as [|a p IH]; simpl; [reflexivity|].
  now rewrite N.eqb_refl.
Qed.

Lemma strip_prefix_blocked (p a r : str) (w : cp) :
  strip_prefix p a = None -> ~ In w p -> strip_prefix p (a ++ w :: r) = None.
Proof.
  revert a. induction p as [|x p IH]; intros a; simpl; [discriminate|].
  intros Hn Hw. destruct a as [|b a]; simpl.
  - destruct (N.eqb_spec x w) as [->|]; [|reflexivity].
    exfalso. apply Hw. now left.
  - destruct (x =? b); [|reflexivity].
    apply IH; [exact Hn | intros Hi; apply Hw; now right].
Qed.

Lemma startswith_false (p s : str) :
  startswith p s = false -> strip_prefix p s = None.
Proof. unfold startswith. now destruct (strip_prefix p s). Qed.

Lemma strip_fenced_tail (a : cp) (m : str) :
  is_space a = false ->
  strip (a :: m ++ line_feed ++ Re.fence) = a :: m ++ line_feed ++ Re.fence.
Proof.
  intros Ha. apply trimmed_strip. split.
  - now apply drop_while_keeps.
  - simpl rev. rewrite rev_app_distr. simpl. reflexivity.
Qed.

(** A text that carries no fence of its own goes through unchanged. *)
Lemma unfenced_fixed (t : str) :
  trimmed t -> startswith Re.fence t = false -> endswith Re.fence t = false ->
  strip (Re.sub_fence_close (strip (Re.sub_fence_open
    (strip (Re.sub_fence_json t))))) = t.
Proof.
  intros Ht Hs He.
  assert (Hj : Re.sub_fence_json t = t).
  { unfold Re.sub_fence_json. now rewrite (startswith_false _ _ Hs). }
  assert (Ho : Re.sub_fence_open t = t).
  { unfold Re.sub_fence_open. now rewrite (startswith_false _ _ Hs). }
  assert (Hc : Re.sub_fence_close t = t).
  { unfold Re.sub_fence_close. unfold endswith in He.
    change (rev Re.fence) with Re.fence in He.
    rewrite (startswith_false _ _ He).
    destruct (rev t) as [|c r] eqn:Er; [reflexivity|].
    destruct Ht as [_ Hr]. rewrite Er in Hr.
    pose proof (drop_while_head _ _ _ Hr) as Hsp.
    destruct (N.eqb_spec c 10) as [->|Hc]; [discriminate|].
    destruct c as [|p]; [reflexivity|].
    repeat (destruct p as [p|p|]; try reflexivity); exfalso; now apply Hc. }
  rewrite Hj, (trimmed_strip _ Ht), Ho, (trimmed_strip _ Ht), Hc.
  now apply trimmed_strip.
Qed.

Lemma json_opening (t : str) :
  Re.sub_fence_json (wrap_json t)
  = drop_while is_space (t ++ line_feed ++ Re.fence).
Proof. reflexivity. Qed.

Lemma plain_not_json (t : str) :
  Re.sub_fence_json (wrap_plain t) = wrap_plain t.
Proof.
  unfold wrap_plain, Re.sub_fence_json.
  rewrite strip_prefix_app.
  remember (t ++ line_feed ++ Re.fence) as rest.
  simpl. destruct rest as [|s [|o [|n r]]]; reflexivity.
Qed.

Lemma plain_opening (t : str) :
  Re.sub_fence_open (wrap_plain t)
  = drop_while is_space (t ++ line_feed ++ Re.fence).
Proof. reflexivity. Qed.

Lemma strip_wrap_json (t : str) : strip (wrap_json t) = wrap_json t.
Proof.
  exact (strip_fenced_tail 96 ([96; 96; 106; 115; 111; 110; 10] ++ t) eq_refl).
Qed.

Lemma strip_wrap_plain (t : str) : strip (wrap_plain t) = wrap_plain t.
Proof. exact (strip_fenced_tail 96 ([96; 96; 10] ++ t) eq_refl). Qed.

(** What is left of a fenced block once its opening fence is gone: the
    content [t] (already trimmed), whitespace, and the closing fence. *)
Section Body.
Variables (ws1 t ws2 : str).
Hypothesis Hws1 : spaces ws1.
Hypothesis Hws2 : spaces ws2.
Hypothesis Ht : trimmed t.

Let body : str :=
  strip (drop_while is_space ((ws1 ++ t ++ ws2) ++ line_feed ++ Re.fence)).

Lemma body_empty : t = [] -> body = Re.fence.
Proof.
  intros ->. unfold body.
  change (ws1 ++ [] ++ ws2) with (ws1 ++ ws2).
  rewrite <- app_assoc, (drop_while_spaces _ _ Hws1).
  rewrite app_assoc, drop_while_spaces; [reflexivity|].
  apply spaces_app; [exact Hws2 | now constructor].
Qed.

Lemma body_full :
  t <> [] -> body = t ++ (ws2 ++ line_feed) ++ Re.fence.
Proof.
  intros Hne. unfold body.
  destruct t as [|c r] eqn:Et; [congruence|].
  pose proof (trimmed_head _ _ Ht) as Hc.
  repeat rewrite <- app_assoc. rewrite (drop_while_spaces _ _ Hws1).
  rewrite <- app_comm_cons, (drop_while_keeps _ _ Hc).
  rewrite (app_assoc r ws2). apply (strip_fenced_tail c (r ++ ws2) Hc).
Qed.

Lemma body_close : t <> [] -> Re.sub_fence_close body = t.
Proof.
  intros Hne. rewrite (body_full Hne). unfold Re.sub_fence_close.
  rewrite app_assoc, rev_app_distr.
  change (rev Re.fence) with Re.fence. rewrite strip_prefix_app.
  rewrite rev_app_distr, drop_while_spaces.
  - destruct Ht as [_ Hr]. unfold lstrip in Hr. rewrite Hr.
    apply rev_involutive.
  - apply spaces_rev, spaces_app; [exact Hws2 | now constructor].
Qed.

Lemma body_plain_path : strip (Re.sub_fence_close body) = t.
Proof.
  destruct (list_eq_dec N.eq_dec t []) as [E|Hne].
  - rewrite (body_empty E), E. reflexivity.
  - rewrite (body_close Hne). now apply trimmed_strip.
Qed.

(** With no fence at the start of the content, the second pattern finds
    nothing more to remove. *)
Hypothesis Hs : startswith Re.fence t = false.

Lemma body_open : t <> [] -> Re.sub_fence_open body = body.
Proof.
  intros Hne. rewrite (body_full Hne). unfold Re.sub_fence_open.
  assert (Hsp : spaces (ws2 ++ line_feed))
    by (apply spaces_app; [exact Hws2 | now constructor]).
  destruct (ws2 ++ line_feed) as [|w r] eqn:E.
  { destruct ws2; discriminate. }
  rewrite <- app_comm_cons.
  rewrite strip_prefix_blocked; [reflexivity | now apply startswith_false |].
  inversion Hsp as [|? ? Hw _]; subst.
  intros [<-|[<-|[<-|[]]]]; discriminate.
Qed.

Lemma body_json_path :
  strip (Re.sub_fence_close (strip (Re.sub_fence_open body))) = t.
Proof.
  destruct (list_eq_dec N.eq_dec t []) as [E|Hne].
  - rewrite (body_empty E), E. reflexivity.
  - rewrite (body_open Hne).
    assert (Hb : strip body = body).
    { unfold body. apply trimmed_strip, strip_trimmed. }
    rewrite Hb, (body_close Hne). now apply trimmed_strip.
Qed.

End Body.

(** *** The condition on the content cannot be dropped *)

Lemma strip_le (s : str) : (List.length (strip s) <= List.length s)%nat.
Proof.
  unfold strip, lstrip, rstrip.
  pose proof (drop_while_le is_space (rev s)) as H1.
  pose proof (drop_while_le is_space (rev (drop_while is_space (rev s)))) as H2.
  rewrite !length_rev in *. lia.
Qed.

Lemma strip_prefix_len (p s r : str) :
  strip_prefix p s = Some r ->
  List.length s = (List.length p + List.length r)%nat.
Proof.
  revert s. induction p as [|a p IH]; intros s; cbn [strip_prefix].
  - now intros [= ->].
  - destruct s as [|b s]; [discriminate|].
    destruct (a =? b); [|discriminate].
    intros H. cbn [List.length]. now rewrite (IH _ H).
Qed.

Lemma sub_fence_json_le (t : str) :
  (List.length (Re.sub_fence_json t) <= List.length t)%nat.
Proof.
  unfold Re.sub_fence_json.
  destruct (strip_prefix Re.fence t) as [r|] eqn:E; [|lia].
  apply strip_prefix_len in E.
  destruct r as [|j [|s [|o [|n r]]]]; try lia.
  destruct (_ && _); [|lia].
  pose proof (drop_while_le is_space r). cbn [List.length] in *. lia.
Qed.

Lemma sub_fence_open_le (t : str) :
  (List.length (Re.sub_fence_open t) <= List.length t)%nat.
Proof.
  unfold Re.sub_fence_open.
  destruct (strip_prefix Re.fence t) as [r|] eqn:E; [|lia].
  apply strip_prefix_len in E. pose proof (drop_while_le is_space r). lia.
Qed.

Lemma sub_fence_open_shrinks (t : str) :
  startswith Re.fence t = true ->
  (List.length (Re.sub_fence_open t) < List.length t)%nat.
Proof.
  unfold startswith, Re.sub_fence_open.
  destruct (strip_prefix Re.fence t) as [r|] eqn:E; [|discriminate].
  intros _. apply strip_prefix_len in E.
  pose proof (drop_while_le is_space r). cbn [List.length Re.fence] in E. lia.
Qed.

Lemma sub_fence_close_le (t : str) :
  (List.length (Re.sub_fence_close t) <= List.length t)%nat.
Proof.
  unfold Re.sub_fence_close. rewrite <- (length_rev t).
  destruct (strip_prefix Re.fence (rev t)) as [r|] eqn:E.
  - apply strip_prefix_len in E. pose proof (drop_while_le is_space r).
    rewrite length_rev. lia.
  - destruct (rev t) as [|c r'] eqn:Er; [rewrite <- Er, length_rev; lia|].
    assert (G : forall x : str,
               (List.length x <= List.length r')%nat ->
               (List.length (x ++ [10%N]) <= List.length (c :: r'))%nat).
    { intros x Hx. rewrite length_app. cbn [List.length]. lia. }
    assert (Ht : List.length t = List.length (c :: r')).
    { now rewrite <- Er, length_rev. }
    destruct (strip_prefix Re.fence r') as [r|] eqn:E2.
    + apply strip_prefix_len in E2. pose proof (drop_while_le is_space r).
      assert (Hx : (List.length (rev (drop_while is_space r))
                    <= List.length r')%nat) by (rewrite length_rev; lia).
      specialize (G _ Hx).
      destruct c as [|q]; [lia|].
      repeat (destruct q as [q|q|]; try lia).
    + destruct c as [|q]; [lia|].
      repeat (destruct q as [q|q|]; try lia).
Qed.

Lemma sub_fence_close_shrinks (t : str) :
  endswith Re.fence t = true ->
  (List.length (Re.sub_fence_close t) < List.length t)%nat.
Proof.
  unfold endswith, startswith, Re.sub_fence_close.
  change (rev Re.fence) with Re.fence.
  destruct (strip_prefix Re.fence (rev t)) as [r|] eqn:E; [|discriminate].
  intros _. apply strip_prefix_len in E. rewrite length_rev in *.
  pose proof (drop_while_le is_space r). cbn [List.length Re.fence] in E. lia.
Qed.

(** A trimmed text with a fence of its own at either end gets shorter. *)
Lemma own_fence_shrinks (t : str) :
  trimmed t ->
  startswith Re.fence t = true \/ endswith Re.fence t = true ->
  (List.length (strip (Re.sub_fence_close (strip (Re.sub_fence_open
     (strip (Re.sub_fence_json t)))))) < List.length t)%nat.
Proof.
  intros Ht H.
  remember (strip (Re.sub_fence_json t)) as a eqn:Da.
  remember (strip (Re.sub_fence_open a)) as b eqn:Db.
  pose proof (strip_le (Re.sub_fence_json t)) as La.
  pose proof (sub_fence_json_le t) as Lj.
  pose proof (strip_le (Re.sub_fence_open a)) as Lb.
  pose proof (sub_fence_open_le a) as Lo.
  pose proof (strip_le (Re.sub_fence_close b)) as Lc.
  pose proof (sub_fence_close_le b) as Lz.
  rewrite <- Da in La. rewrite <- Db in Lb.
  destruct (list_eq_dec N.eq_dec (Re.sub_fence_json t) t) as [Ej|Nj].
  - assert (Ea : a = t) by (rewrite Da, Ej; now apply trimmed_strip).
    clear Da. subst a.
    destruct (startswith Re.fence t) eqn:Hs.
    + pose proof (sub_fence_open_shrinks t Hs) as S. lia.
    + destruct H as [H|H]; [discriminate|].
      assert (Eo : Re.sub_fence_open t = t).
      { unfold Re.sub_fence_open. now rewrite (startswith_false _ _ Hs). }
      assert (Eb : b = t) by (rewrite Db, Eo; now apply trimmed_strip).
      clear Db. subst b.
      pose proof (sub_fence_close_shrinks t H) as S. lia.
  - assert (Lt : (List.length (Re.sub_fence_json t) < List.length t)%nat).
    { clear Da La Lj. unfold Re.sub_fence_json in *.
      destruct (strip_prefix Re.fence t) as [r|] eqn:E; [|congruence].
      apply strip_prefix_len in E.
      destruct r as [|j [|s [|o [|n r]]]]; try congruence.
      destruct (_ && _); [|congruence].
      pose proof (drop_while_le is_space r).
      cbn [List.length] in *. lia. }
    lia.
Qed.

(** Inside a plain fenced block every text comes out trimmed and whole. *)
Lemma plain_block_content (t : str) :
  _strip_code_fences (Some (wrap_plain t)) = strip t.
Proof.
  destruct (strip_split t) as [ws1 [ws2 [E [H1 H2]]]].
  pose proof (body_plain_path ws1 (strip t) ws2 H1 H2 (strip_trimmed t)) as P.
  rewrite <- E in P. unfold _strip_code_fences, or_empty.
  now rewrite strip_wrap_plain, plain_not_json, strip_wrap_plain,
    plain_opening.
Qed.

(** The plain fenced block agrees with the bare text exactly when the
    text has no fence of its own. *)
Lemma plain_block_agrees_iff (t : str) :
  _strip_code_fences (Some (wrap_plain t)) = _strip_code_fences (Some t)
  <-> startswith Re.fence (strip t) = false
      /\ endswith Re.fence (strip t) = false.
Proof.
  rewrite plain_block_content. split.
  - intros E.
    destruct (startswith Re.fence (strip t)) eqn:Hs;
      [|destruct (endswith Re.fence (strip t)) eqn:He; [|now split]];
      exfalso;
      [ pose proof (own_fence_shrinks (strip t) (strip_trimmed t)
                      (or_introl Hs)) as L
      | pose proof (own_fence_shrinks (strip t) (strip_trimmed t)
                      (or_intror He)) as L ];
      unfold _strip_code_fences, or_empty in E; rewrite <- E in L; lia.
  - intros [Hs He]. symmetry. unfold _strip_code_fences, or_empty.
    exact (unfenced_fixed (strip t) (strip_trimmed t) Hs He).
Qed.

End FenceFacts.

(** ** Substrings *)

Module ContainsFacts.

Lemma strip_prefix_some (p s r : str) :
  strip_prefix p s = Some r -> s = p ++ r.
Proof.
  revert s. induction p as [|a p IH]; intros s; simpl.
  - now intros [= ->].
  - destruct s as [|b s]; [discriminate|].
    destruct (N.eqb_spec a b) as [->|]; [|discriminate].
    intros H. now rewrite (IH _ H).
Qed.

Lemma startswith_app (p r : str) : startswith p (p ++ r) = true.
Proof. unfold startswith. now rewrite FenceFacts.strip_prefix_app. Qed.

Lemma startswith_inv (p s : str) :
  startswith p s = true -> exists r, s = p ++ r.
Proof.
  unfold startswith. destruct (strip_prefix p s) as [r|] eqn:E; [|discriminate].
  intros _. exists r. now apply strip_prefix_some.
Qed.

Lemma contains_here (p s : str) : startswith p s = true -> contains p s = true.
Proof. intros H. destruct s; simpl; now rewrite H. Qed.

Lemma contains_cons (p s : str) (c : cp) :
  contains p s = true -> contains p (c :: s) = true.
Proof. intros H. simpl. rewrite H. apply orb_true_r. Qed.

Lemma contains_app_l (p x s : str) :
  contains p s = true -> contains p (x ++ s) = true.
Proof.
  intros H. induction x as [|c x IH]; [exact H|].
  now apply contains_cons.
Qed.

Lemma contains_infix (p pre post : str) :
  contains p (pre ++ p ++ post) = true.
Proof. apply contains_app_l, contains_here, startswith_app. Qed.

(** An occurrence cannot start inside a stretch of text that lacks the
    first character of the pattern. *)
Lemma contains_skip (t : cp) (p x y : str) :
  ~ In t x -> contains (t :: p) (x ++ y) = true -> contains (t :: p) y = true.
Proof.
  induction x as [|a x IH]; intros Hn H; [exact H|].
  apply IH; [intros Hi; apply Hn; now right|].
  change ((a :: x) ++ y) with (a :: x ++ y) in H.
  cbn [contains] in H. apply orb_true_iff in H as [H|H]; [|exact H].
  exfalso. apply Hn. left.
  unfold startswith in H. cbn [strip_prefix] in H.
  destruct (N.eqb_spec t a) as [->|]; [reflexivity | discriminate].
Qed.

Lemma contains_inv (p s : str) :
  contains p s = true -> exists pre post, s = pre ++ p ++ post.
Proof.
  induction s as [|c s IH]; cbn [contains]; intros H.
  - apply orb_true_iff in H as [H|H]; [|discriminate].
    destruct (startswith_inv _ _ H) as [r E]. now exists [], r.
  - apply orb_true_iff in H as [H|H].
    + destruct (startswith_inv _ _ H) as [r E]. now exists [], r.
    + destruct (IH H) as [pre [post E]]. exists (c :: pre), post.
      now rewrite E.
Qed.

End ContainsFacts.

(** ** [str.lower()] and the brand keyword *)

Module LowerFacts.
Import ContainsFacts Lower.

Section WithTables.
Context {U : UnicodeData}.
Hypothesis HU : tables_ok U.

Lemma lower_letter (k c : cp) (before after : str) :
  97 <= k <= 122 -> same_letter k c -> lower_ucs4 before c after = [k].
Proof.
  intros Hk Hc. unfold lower_ucs4, capital_sigma.
  destruct (N.eqb_spec c 931) as [->|_].
  { destruct Hc as [E|E]; lia. }
  destruct Hc as [->|E].
  - apply (lower_ascii_other U HU); lia.
  - rewrite (lower_ascii_upper U HU) by lia. now rewrite E.
Qed.

Lemma lower_nonempty (c : cp) (before after : str) :
  lower_ucs4 before c after <> [].
Proof.
  unfold lower_ucs4. destruct (c =? capital_sigma); [discriminate|].
  destruct (N.lt_ge_cases c 128) as [Hlt|Hge].
  - destruct (N.le_gt_cases 65 c) as [H1|H1];
      [destruct (N.le_gt_cases c 90) as [H2|H2]|].
    + now rewrite (lower_ascii_upper U HU) by lia.
    + now rewrite (lower_ascii_other U HU) by lia.
    + now rewrite (lower_ascii_other U HU) by lia.
  - apply (lower_beyond_ascii U HU c Hge).
Qed.

(** Only [t], [T] give a [t], and only [a], [A] give an [a]; each gives
    nothing else. *)
Lemma lower_has (k c : cp) (before after : str) :
  k = 116 \/ k = 97 ->
  In k (lower_ucs4 before c after) ->
  same_letter k c /\ lower_ucs4 before c after = [k].
Proof.
  intros Hk. unfold lower_ucs4, capital_sigma.
  destruct (N.eqb_spec c 931) as [->|_].
  { unfold handle_capital_sigma, small_final_sigma, small_sigma.
    intros [E|[]]. exfalso.
    destruct (if match drop_while IsCaseIgnorable before with
                 | [] => false | c :: _ => IsCased c end
              then match drop_while IsCaseIgnorable after with
                   | [] => true | c :: _ => negb (IsCased c) end
              else false); lia. }
  destruct (N.lt_ge_cases c 128) as [Hlt|Hge].
  - destruct (N.le_gt_cases 65 c) as [H1|H1];
      [destruct (N.le_gt_cases c 90) as [H2|H2]|].
    + rewrite (lower_ascii_upper U HU) by lia. intros [E|[]].
      split; [now right | now rewrite E].
    + rewrite (lower_ascii_other U HU) by lia. intros [E|[]].
      split; [now left | now rewrite E].
    + rewrite (lower_ascii_other U HU) by lia. intros [E|[]].
      split; [now left | now rewrite E].
  - intros Hin. exfalso.
    destruct (lower_beyond_ascii U HU c Hge) as [_ [Ht Ha]].
    destruct Hk as [->| ->]; auto.
Qed.

Lemma do_lower_app (x y before : str) :
  exists l, do_lower before (x ++ y) = l ++ do_lower (rev x ++ before) y.
Proof.
  revert before. induction x as [|c x IH]; intros before.
  - now exists [].
  - destruct (IH (c :: before)) as [l E].
    exists (lower_ucs4 before c (x ++ y) ++ l).
    cbn [app do_lower rev]. rewrite E, <- !app_assoc. reflexivity.
Qed.

Lemma do_lower_head (k : cp) (s x before : str) :
  k = 116 \/ k = 97 ->
  do_lower before s = k :: x ->
  exists c r, s = c :: r /\ same_letter k c /\ x = do_lower (c :: before) r.
Proof.
  intros Hk. destruct s as [|c r]; cbn [do_lower]; [discriminate|].
  intros E. exists c, r. split; [reflexivity|].
  destruct (lower_ucs4 before c r) as [|i l] eqn:Ei.
  { exfalso. exact (lower_nonempty _ _ _ Ei). }
  cbn [app] in E. injection E as -> E.
  destruct (lower_has k c before r Hk) as [Hs Hl].
  { rewrite Ei. now left. }
  split; [exact Hs|].
  rewrite Ei in Hl. injection Hl as ->. now rewrite <- E.
Qed.

Lemma mentions_cons (kw s : str) (c : cp) :
  mentions kw s -> mentions kw (c :: s).
Proof.
  intros [pre [w [post [E H]]]]. exists (c :: pre), w, post.
  split; [now rewrite E | exact H].
Qed.

Lemma lower_contains_mentions (s before : str) :
  contains brand_keyword (do_lower before s) = true ->
  mentions brand_keyword s.
Proof.
  revert before. induction s as [|c r IH]; intros before H.
  { discriminate. }
  destruct (startswith brand_keyword (do_lower before (c :: r))) eqn:Hs.
  - destruct (startswith_inv _ _ Hs) as [rest E].
    change (brand_keyword ++ rest) with (116 :: 97 :: 116 :: 97 :: rest) in E.
    destruct (do_lower_head 116 _ _ _ (or_introl eq_refl) E)
      as [c1 [r1 [E1 [L1 D1]]]].
    symmetry in D1.
    destruct (do_lower_head 97 _ _ _ (or_intror eq_refl) D1)
      as [c2 [r2 [E2 [L2 D2]]]].
    symmetry in D2.
    destruct (do_lower_head 116 _ _ _ (or_introl eq_refl) D2)
      as [c3 [r3 [E3 [L3 D3]]]].
    symmetry in D3.
    destruct (do_lower_head 97 _ _ _ (or_intror eq_refl) D3)
      as [c4 [r4 [E4 [L4 _]]]].
    exists [], [c1; c2; c3; c4], r4. split.
    + rewrite E1, E2, E3, E4. reflexivity.
    + unfold brand_keyword. cbn. repeat first [assumption | constructor].
  - apply mentions_cons. cbn [do_lower] in H, Hs.
    destruct (in_dec N.eq_dec 116 (lower_ucs4 before c r)) as [Hin|Hout].
    + destruct (lower_has 116 c before r (or_introl eq_refl) Hin) as [_ El].
      rewrite El in H, Hs. cbn [app contains] in H, Hs.
      rewrite Hs in H. exact (IH _ H).
    + exact (IH _ (contains_skip _ _ _ _ Hout H)).
Qed.

Lemma mentions_lower_contains (s : str) :
  mentions brand_keyword s ->
  contains brand_keyword (lower s) = true.
Proof.
  intros [pre [w [post [-> H]]]].
  inversion H as [|k1 c1 ? ? L1 H1]; subst.
  inversion H1 as [|k2 c2 ? ? L2 H2]; subst.
  inversion H2 as [|k3 c3 ? ? L3 H3]; subst.
  inversion H3 as [|k4 c4 ? ? L4 H4]; subst.
  inversion H4; subst.
  unfold lower. destruct (do_lower_app pre ([c1; c2; c3; c4] ++ post) [])
    as [l ->].
  apply contains_app_l. cbn [app do_lower].
  rewrite (lower_letter 116 c1), (lower_letter 97 c2),
          (lower_letter 116 c3), (lower_letter 97 c4) by (lia || assumption).
  apply contains_here. reflexivity.
Qed.

(** The test of the normalizer, in terms of the query itself. *)
Lemma keyword_test (raw : str) :
  contains brand_keyword (lower raw) = true <-> mentions brand_keyword raw.
Proof.
  split; [apply lower_contains_mentions | apply mentions_lower_contains].
Qed.

End WithTables.

Lemma sample_tables_ok : tables_ok sample_tables.
Proof.
  split; cbn [ToLowerFull sample_tables]; unfold sample_ToLowerFull, is_ascii_upper;
    intros c.
  - intros [H1 H2].
    apply N.leb_le in H1, H2. now rewrite H1, H2.
  - intros Hlt Hn.
    destruct (N.leb_spec 65 c); destruct (N.leb_spec c 90); cbn [andb];
      try (exfalso; apply Hn; lia).
    all: destruct (N.leb_spec 192 c); try lia; cbn [andb].
    all: destruct (N.eqb_spec c 304); try lia.
    all: destruct (N.eqb_spec c 8490); try lia; reflexivity.
  - intros Hge.
    destruct (N.leb_spec 65 c); destruct (N.leb_spec c 90); cbn [andb];
      try lia.
    all: destruct (N.leb_spec 192 c); destruct (N.leb_spec c 222);
      destruct (N.eqb_spec c 215); cbn [andb negb].
    all: destruct (N.eqb_spec c 304); destruct (N.eqb_spec c 8490).
    all: split; [discriminate|]; cbn [In]; split; lia.
Qed.

End LowerFacts.

(** ** Dictionaries and the extractor *)

Module ExtractFacts.

Lemma str_eqb_eq (a b : str) : str_eqb a b = true <-> a = b.
Proof.
  unfold str_eqb. destruct (list_eq_dec N.eq_dec a b); split;
    congruence || discriminate.
Qed.

Lemma str_eqb_refl (a : str) : str_eqb a a = true.
Proof. now apply str_eqb_eq. Qed.

Lemma str_eqb_neq (a b : str) : a <> b -> str_eqb a b = false.
Proof.
  intros H. destruct (str_eqb a b) eqn:E; [|reflexivity].
  now apply str_eqb_eq in E.
Qed.

Lemma dict_get_set_same (d : dict) (k : str) (v : pyval) :
  dict_get (dict_set d k v) k = Some v.
Proof.
  induction d as [|[k' v'] d IH]; cbn [dict_set dict_get].
  - now rewrite str_eqb_refl.
  - destruct (str_eqb k' k) eqn:E; cbn [dict_get]; now rewrite E.
Qed.

Lemma dict_get_set_other (d : dict) (k k' : str) (v : pyval) :
  k' <> k -> dict_get (dict_set d k v) k' = dict_get d k'.
Proof.
  intros Hne. induction d as [|[k0 v0] d IH]; cbn [dict_set dict_get].
  - rewrite str_eqb_neq; [reflexivity | congruence].
  - destruct (str_eqb k0 k) eqn:E; cbn [dict_get].
    + apply str_eqb_eq in E. subst k0.
      rewrite str_eqb_neq; [reflexivity | congruence].
    + destruct (str_eqb k0 k'); [reflexivity | exact IH].
Qed.

(** Every item of [compact] is a dictionary built by the comprehension. *)
Lemma compact_result_dict (r s : pyval) :
  compact_result r = Return s -> is_dict s = true.
Proof.
  unfold compact_result. destruct r; cbn; try discriminate.
  destruct (py_slice_to _ _); cbn; [|discriminate].
  now intros [= <-].
Qed.

Lemma map_m_dicts (rs compact : list pyval) :
  map_m compact_result rs = Return compact ->
  Forall (fun s => is_dict s = true) compact.
Proof.
  revert compact. induction rs as [|r rs IH]; intros compact; cbn [map_m].
  - intros [= <-]. constructor.
  - destruct (compact_result r) as [s|] eqn:Es; cbn [bind]; [|discriminate].
    destruct (map_m compact_result rs) as [ss|]; cbn [bind]; [|discriminate].
    intros [= <-]. constructor; [exact (compact_result_dict _ _ Es) | now apply IH].
Qed.

Lemma compact_results_dicts (web_results : pyval) (compact : list pyval) :
  compact_results web_results = Return compact ->
  Forall (fun s => is_dict s = true) compact.
Proof.
  unfold compact_results.
  destruct (py_iter web_results); cbn [bind]; [apply map_m_dicts | discriminate].
Qed.

(** The provenance list is a filter followed by a map. *)
Lemma sources_used_of_dicts (compact : list pyval) :
  Forall (fun s => is_dict s = true) compact ->
  sources_used_of compact = Return (List.map title_url (filter has_url compact)).
Proof.
  induction 1 as [|s r Hs _ IH]; [reflexivity|].
  destruct s; try discriminate.
  cbn [sources_used_of py_get bind filter].
  unfold has_url. cbn [url_of].
  destruct (truthy _); [|exact IH].
  rewrite IH. reflexivity.
Qed.



Section Extract.
Variables (user_query : str) (web_results : pyval) (reply : option str).
Variable compact : list pyval.
Hypothesis Hcompact : compact_results web_results = Return compact.

Let text : str := _strip_code_fences (Some (or_empty reply)).

Lemma extract_fallback :
  _safe_json_loads text = PNone ->
  groq_structured_answer user_query web_results reply
  = Return (fallback_record user_query text compact).
Proof.
  intros H. unfold groq_structured_answer. rewrite Hcompact. cbn [bind].
  fold text. rewrite H. reflexivity.
Qed.

Lemma extract_object (d : dict) :
  _safe_json_loads text = PDict d ->
  groq_structured_answer user_query web_results reply
  = Return (PDict (dict_set
                     (dict_set d k_mode (PStr (of_string "structured")))
                     k_sources_used
                     (PList (List.map title_url (filter has_url compact))))).
Proof.
  intros H. unfold groq_structured_answer. rewrite Hcompact. cbn [bind].
  fold text. rewrite H. cbn [py_setitem bind].
  rewrite (sources_used_of_dicts _ (compact_results_dicts _ _ Hcompact)).
  reflexivity.
Qed.

Lemma extract_other (v : pyval) :
  _safe_json_loads text = v -> v <> PNone -> is_dict v = false ->
  groq_structured_answer user_query web_results reply = Raise TypeError.
Proof.
  intros H Hn Hd. unfold groq_structured_answer. rewrite Hcompact. cbn [bind].
  fold text. rewrite H. destruct v; try reflexivity; congruence || discriminate.
Qed.

End Extract.



End ExtractFacts.

(** ** The decoder consumes its input and never runs out of fuel *)

Module JsonFacts.
Import Json ContainsFacts.

Ltac break_in H :=
  match type of H with
  | context [match ?x with _ => _ end] => destruct x eqn:?
  | context [if ?x then _ else _] => destruct x eqn:?
  end.

Ltac break_goal :=
  match goal with
  | |- context [match ?x with _ => _ end] => destruct x eqn:?
  | |- context [if ?x then _ else _] => destruct x eqn:?
  end.

Lemma skip_ws_le (s : str) :
  (List.length (skip_ws s) <= List.length s)%nat.
Proof. apply StripFacts.drop_while_le. Qed.

Lemma skip_ws_cons (s r : str) (c : cp) :
  skip_ws s = c :: r -> (List.length r < List.length s)%nat.
Proof.
  intros E. pose proof (skip_ws_le s) as H. rewrite E in H.
  cbn [List.length] in H. lia.
Qed.

Lemma scan_pieces_progress (n : nat) :
  forall s acc ps r,
    (List.length s <= n)%nat -> scan_pieces s acc = Parsed ps r ->
    (List.length r < List.length s)%nat.
Proof.
  induction n as [|n IH]; intros s acc ps r Hn H.
  - destruct s; [discriminate | cbn [List.length] in Hn; lia].
  - destruct s as [|c s1]; [discriminate|].
    cbn [scan_pieces List.length] in *.
    repeat break_in H; try discriminate.
    + injection H as _ <-. lia.
    + subst. apply IH in H; cbn [List.length] in *; lia.
    + apply IH in H; cbn [List.length] in *; lia.
    + apply IH in H; lia.
Qed.

Lemma scan_pieces_total (n : nat) :
  forall s acc, (List.length s <= n)%nat -> scan_pieces s acc <> Exhausted.
Proof.
  induction n as [|n IH]; intros s acc Hn.
  - destruct s; [discriminate | cbn [List.length] in Hn; lia].
  - destruct s as [|c s1]; [discriminate|].
    cbn [scan_pieces List.length] in *.
    repeat break_goal; try discriminate; subst;
      apply IH; cbn [List.length] in *; lia.
Qed.

Lemma scanstring_progress (s k r : str) :
  scanstring s = Parsed k r -> (List.length r < List.length s)%nat.
Proof.
  unfold scanstring. destruct (scan_pieces s []) as [ps r'| |] eqn:E;
    try discriminate.
  intros [= _ <-]. exact (scan_pieces_progress _ _ _ _ _ (le_n _) E).
Qed.

Lemma scanstring_total (s : str) : scanstring s <> Exhausted.
Proof.
  unfold scanstring. destruct (scan_pieces s []) eqn:E; try discriminate.
  exfalso. exact (scan_pieces_total _ _ _ (le_n _) E).
Qed.

Lemma span_digits_le (s ds r : str) :
  span_digits s = (ds, r) -> (List.length r <= List.length s)%nat.
Proof.
  revert ds r. induction s as [|c s IH]; intros ds r; cbn [span_digits].
  - intros [= _ <-]. lia.
  - destruct (is_digit c).
    + destruct (span_digits s) as [ds' r'] eqn:E. intros [= _ <-].
      specialize (IH _ _ eq_refl). cbn [List.length]. lia.
    + intros [= _ <-]. lia.
Qed.

Lemma match_sign_le (s r : str) (b : bool) :
  match_sign s = (b, r) -> (List.length r <= List.length s)%nat.
Proof.
  unfold match_sign. intros H.
  repeat break_in H; injection H as _ <-; cbn [List.length]; lia.
Qed.

Lemma match_integer_lt (s ds r : str) :
  match_integer s = Some (ds, r) -> (List.length r < List.length s)%nat.
Proof.
  unfold match_integer. intros H.
  destruct s as [|c s]; [discriminate|].
  destruct (c =? 48).
  - injection H as _ <-. cbn [List.length]. lia.
  - destruct (is_digit c); [|discriminate].
    destruct (span_digits s) as [ds' r'] eqn:E. injection H as _ <-.
    apply span_digits_le in E. cbn [List.length]. lia.
Qed.

Lemma match_frac_le (s r : str) (f : option (list cp)) :
  match_frac s = (f, r) -> (List.length r <= List.length s)%nat.
Proof.
  unfold match_frac. intros H.
  destruct s as [|c s]; [injection H as _ <-; lia|].
  destruct (span_digits s) as [ds r'] eqn:E. apply span_digits_le in E.
  repeat break_in H; injection H as _ <-; cbn [List.length]; lia.
Qed.

Lemma match_exp_le (s r : str) (e : option Z) :
  match_exp s = (e, r) -> (List.length r <= List.length s)%nat.
Proof.
  unfold match_exp. intros H.
  destruct s as [|c s]; [injection H as _ <-; lia|].
  destruct ((c =? 101) || (c =? 69)); [|injection H as _ <-; lia].
  destruct (match s with
            | 45 :: r1 => (true, r1)
            | 43 :: r1 => (false, r1)
            | _ => (false, s)
            end) as [neg r0] eqn:E0.
  assert (H0 : (List.length r0 <= List.length s)%nat).
  { repeat break_in E0; injection E0 as _ <-; cbn [List.length]; lia. }
  destruct (span_digits r0) as [ds r'] eqn:E. apply span_digits_le in E.
  destruct ds; injection H as _ <-; cbn [List.length]; lia.
Qed.

Lemma match_number_progress (s r : str) (v : pyval) :
  match_number s = Some (v, r) -> (List.length r < List.length s)%nat.
Proof.
  unfold match_number. intros H.
  destruct (match_sign s) as [neg s0] eqn:E0. apply match_sign_le in E0.
  destruct (match_integer s0) as [[ids s1]|] eqn:E1; [|discriminate].
  apply match_integer_lt in E1.
  destruct (match_frac s1) as [frac s2] eqn:E2. apply match_frac_le in E2.
  destruct (match_exp s2) as [exp s3] eqn:E3. apply match_exp_le in E3.
  injection H as _ <-. lia.
Qed.

Ltac lengths :=
  repeat match goal with
  | H : skip_ws _ = _ :: _ |- _ => apply skip_ws_cons in H
  | H : scanstring _ = Parsed _ _ |- _ => apply scanstring_progress in H
  | H : match_number _ = Some _ |- _ => apply match_number_progress in H
  | H : strip_prefix _ _ = Some _ |- _ =>
      apply FenceFacts.strip_prefix_len in H; cbn [List.length of_string
        list_ascii_of_string List.map] in H
  end.

Lemma scan_progress (fuel : nat) : progress_at fuel.
Proof.
  induction fuel as [|f [IH1 [IH2 IH3]]].
  { repeat split; intros; discriminate. }
  repeat split.
  - intros s v r H. cbn [scan_once] in H.
    destruct s as [|c s1]; [discriminate|].
    repeat break_in H; try discriminate;
      try (injection H as _ <-); subst;
      try (apply IH2 in H); try (apply IH3 in H);
      pose proof (skip_ws_le s1);
      lengths; cbn [List.length] in *; lia.
  - intros s acc v r H. cbn [array_loop] in H.
    destruct (scan_once f s) as [v0 r0| |] eqn:E; try discriminate.
    apply IH1 in E.
    repeat break_in H; try discriminate;
      try (injection H as _ <-); subst;
      try (apply IH2 in H);
      repeat match goal with
             | H : context [skip_ws ?x] |- _ =>
                 lazymatch goal with
                 | _ : (List.length (skip_ws x) <= _)%nat |- _ => fail
                 | _ => pose proof (skip_ws_le x)
                 end
             end;
      lengths; cbn [List.length] in *; lia.
  - intros s pairs v r H. cbn [object_loop] in H.
    destruct (scanstring s) as [key s1| |] eqn:E; try discriminate.
    destruct (skip_ws s1) as [|c1 s2] eqn:E1; [discriminate|].
    destruct (scan_once f (skip_ws s2)) as [v0 s3| |] eqn:E2.
    + apply IH1 in E2. pose proof (skip_ws_le s2).
      repeat break_in H; try discriminate;
        try (injection H as _ <-); subst;
        try (apply IH3 in H);
        lengths; cbn [List.length] in *; lia.
    + repeat break_in H; discriminate.
    + repeat break_in H; discriminate.
Qed.

Ltac progress_facts :=
  repeat match goal with
  | H : scan_once ?f _ = Parsed _ _ |- _ =>
      apply (proj1 (scan_progress f)) in H
  end;
  repeat match goal with
  | H : context [skip_ws ?x] |- _ =>
      lazymatch goal with
      | _ : (List.length (skip_ws x) <= _)%nat |- _ => fail
      | _ => pose proof (skip_ws_le x)
      end
  end;
  lengths; cbn [List.length] in *.

Lemma scan_fuelled (fuel : nat) : fuelled_at fuel.
Proof.
  induction fuel as [|f [IH1 [IH2 IH3]]].
  { repeat split; intros; lia. }
  repeat split.
  - intros s Hf H. cbn [scan_once] in H.
    destruct s as [|c s1]; [discriminate|]. cbn [List.length] in Hf.
    repeat break_in H; try discriminate; subst;
      try (exact (scanstring_total _ ltac:(eassumption)));
      [ apply IH3 in H | apply IH2 in H .. ]; try exact H;
      progress_facts; lia.
  - intros s acc Hf H. cbn [array_loop] in H.
    destruct (scan_once f s) as [v0 r0| |] eqn:E.
    + repeat break_in H; try discriminate; subst.
      apply IH2 in H; [exact H|]. progress_facts. lia.
    + discriminate.
    + apply IH1 in E; [exact E | lia].
  - intros s pairs Hf H. cbn [object_loop] in H.
    destruct (scanstring s) as [key s1| |] eqn:E;
      [| discriminate | exact (scanstring_total _ E)].
    destruct (skip_ws s1) as [|c1 s2] eqn:E1; [discriminate|].
    destruct (scan_once f (skip_ws s2)) as [v0 s3| |] eqn:E2.
    + repeat break_in H; try discriminate; subst.
      apply IH3 in H; [exact H|]. progress_facts. lia.
    + repeat break_in H; discriminate.
    + assert (Hx : scan_once f (skip_ws s2) <> Exhausted).
      { apply IH1. pose proof (skip_ws_le s2). progress_facts. lia. }
      repeat break_in H; try discriminate; now apply Hx.
Qed.

(** [json_loads] never stops for lack of fuel: it returns a value or
    raises the decoder's error. *)
Lemma json_loads_total (s : str) :
  (exists v, json_loads s = Return v) \/ json_loads s = Raise JSONDecodeError.
Proof.
  unfold json_loads. destruct (startswith _ s); [now right|].
  destruct (scan_once (enough_fuel s) (skip_ws s)) as [v r| |] eqn:E.
  - destruct (skip_ws r); [left; now exists v | now right].
  - now right.
  - exfalso. apply (proj1 (scan_fuelled (enough_fuel s))) in E; [exact E|].
    unfold enough_fuel. pose proof (skip_ws_le s). lia.
Qed.

End JsonFacts.

(** * The claims *)

Import StripFacts FenceFacts ContainsFacts LowerFacts ExtractFacts.

(** ** The query normalizer *)

(** C5. A raw query that contains the brand keyword [tata], in any mix of
    letter cases, is returned unchanged. *)
Theorem keyword_query_unchanged (U : UnicodeData) (raw : str) :
  tables_ok U ->
  mentions brand_keyword raw ->
  _build_search_query raw = raw.
Proof.
  intros HU H. unfold _build_search_query.
  now rewrite (mentions_lower_contains HU raw H).
Qed.

Lemma keyword_query_unchanged_witness :
  tables_ok sample_tables
  /\ mentions brand_keyword (of_string "Nearest TATA dealer in Wakad Pune")
  /\ @_build_search_query sample_tables
       (of_string "Nearest TATA dealer in Wakad Pune")
     = of_string "Nearest TATA dealer in Wakad Pune".
Proof.
  assert (H : mentions brand_keyword
                (of_string "Nearest TATA dealer in Wakad Pune")).
  { exists (of_string "Nearest "), (of_string "TATA"),
      (of_string " dealer in Wakad Pune").
    split; [reflexivity|].
    repeat constructor; right; reflexivity. }
  split; [exact sample_tables_ok|]. split; [exact H|].
  exact (keyword_query_unchanged sample_tables _ sample_tables_ok H).
Defined.



(** C9. The keyword test is a plain substring test on the lower-cased
    query: whenever [tata] occurs in it the query is returned unchanged,
    whatever stands before and after the four letters, as in
    [tatami mats showroom]. *)
Theorem keyword_inside_word (U : UnicodeData) (pre post : str) :
  tables_ok U ->
  (forall raw, contains brand_keyword (Lower.lower raw) = true ->
               _build_search_query raw = raw)
  /\ _build_search_query (pre ++ brand_keyword ++ post)
     = pre ++ brand_keyword ++ post
  /\ _build_search_query (of_string "tatami mats showroom")
     = of_string "tatami mats showroom".
Proof.
  intros HU.
  assert (G : forall raw, contains brand_keyword (Lower.lower raw) = true ->
                          _build_search_query raw = raw).
  { intros raw H. unfold _build_search_query. now rewrite H. }
  assert (M : forall a b, mentions brand_keyword (a ++ brand_keyword ++ b)).
  { intros a b. exists a, brand_keyword, b. split; [reflexivity|].
    repeat constructor; left; reflexivity. }
  split; [exact G|]. split.
  - apply G, (mentions_lower_contains HU), M.
  - apply G, (mentions_lower_contains HU).
    exact (M [] (of_string "mi mats showroom")).
Qed.

Lemma keyword_inside_word_witness :
  tables_ok sample_tables
  /\ @_build_search_query sample_tables
       (of_string "cheap " ++ brand_keyword ++ of_string "mi mats")
     = of_string "cheap " ++ brand_keyword ++ of_string "mi mats".
Proof.
  split; [exact sample_tables_ok|].
  exact (proj1 (proj2 (keyword_inside_word sample_tables
                         (of_string "cheap ") (of_string "mi mats")
                         sample_tables_ok))).
Defined.

(** ** The fence stripper *)

(** C7, as stated, fails: a text that ends with a fence of its own loses
    that fence when stripped alone and keeps it inside a fenced block,
    where only the outer closing fence is removed. *)
Lemma inner_fence_survives :
  _strip_code_fences (Some (wrap_json (of_string "a```")))
  <> _strip_code_fences (Some (of_string "a```")).
Proof. vm_compute. discriminate. Qed.

(** C7, amended. For a text that, once trimmed, neither starts nor ends
    with a fence, stripping it inside a [json] fenced block or inside a
    plain fenced block gives what stripping it alone gives. *)
Theorem fenced_same_as_unfenced (t : str) :
  startswith Re.fence (strip t) = false ->
  endswith Re.fence (strip t) = false ->
  _strip_code_fences (Some (wrap_json t)) = _strip_code_fences (Some t)
  /\ _strip_code_fences (Some (wrap_plain t)) = _strip_code_fences (Some t).
Proof.
  intros Hs He.
  assert (R : _strip_code_fences (Some t) = strip t).
  { unfold _strip_code_fences, or_empty.
    exact (unfenced_fixed (strip t) (strip_trimmed t) Hs He). }
  rewrite R.
  destruct (strip_split t) as [ws1 [ws2 [E [H1 H2]]]].
  pose proof (body_json_path ws1 (strip t) ws2 H1 H2 (strip_trimmed t) Hs) as J.
  pose proof (body_plain_path ws1 (strip t) ws2 H1 H2 (strip_trimmed t)) as P.
  rewrite <- E in J, P.
  unfold _strip_code_fences, or_empty. split.
  - now rewrite strip_wrap_json, json_opening.
  - now rewrite strip_wrap_plain, plain_not_json, strip_wrap_plain,
      plain_opening.
Qed.

Lemma fenced_same_as_unfenced_witness :
  startswith Re.fence (strip (quoted " {'dealers': []} ")) = false
  /\ endswith Re.fence (strip (quoted " {'dealers': []} ")) = false
  /\ _strip_code_fences (Some (wrap_json (quoted " {'dealers': []} ")))
     = _strip_code_fences (Some (quoted " {'dealers': []} "))
  /\ _strip_code_fences (Some (wrap_plain (quoted " {'dealers': []} ")))
     = _strip_code_fences (Some (quoted " {'dealers': []} ")).
Proof.
  split; [reflexivity|]. split; [reflexivity|].
  exact (fenced_same_as_unfenced (quoted " {'dealers': []} ")
           eq_refl eq_refl).
Defined.

(** ** The retrieval adapter *)

(** C8. For a provider response that is not a mapping with a [results]
    field, [tavily_search] gives the empty sequence (it has no raising
    path of its own); the extractor then compacts no result and runs as
    it does on an empty result list. *)
Theorem unexpected_shape_no_results (res : pyval) :
  ~ has_results_field res ->
  tavily_search res = PList []
  /\ compact_results (tavily_search res) = Return []
  /\ forall user_query reply,
       groq_structured_answer user_query (tavily_search res) reply
       = groq_structured_answer user_query (PList []) reply.
Proof.
  intros H.
  assert (E : tavily_search res = PList []).
  { destruct res; try reflexivity. cbn [tavily_search].
    destruct (dict_get d (of_string "results")) as [v|] eqn:Ev; [|reflexivity].
    exfalso. apply H. now exists d, v. }
  rewrite E. repeat split.
Qed.

Lemma unexpected_shape_no_results_witness :
  ~ has_results_field error_response
  /\ tavily_search error_response = PList []
  /\ compact_results (tavily_search error_response) = Return []
  /\ forall user_query reply,
       groq_structured_answer user_query (tavily_search error_response) reply
       = groq_structured_answer user_query (PList []) reply.
Proof.
  assert (H : ~ has_results_field error_response).
  { intros [d [v [E G]]]. injection E as <-. discriminate G. }
  split; [exact H|].
  exact (unexpected_shape_no_results error_response H).
Defined.

(** ** The structured response extractor *)

Lemma key_distinct (a b : string) :
  str_eqb (of_string a) (of_string b) = false -> of_string a <> of_string b.
Proof. intros H E. apply str_eqb_eq in E. congruence. Qed.









(** C4 does not hold of the code: when the model's text is the JSON array
    [[]], the extractor ends in neither of the two records; the
    assignment of [mode] raises [TypeError]. *)
Theorem array_reply_raises (user_query : str) :
  Json.json_loads (cleaned_text array_reply) = Return (PList [])
  /\ groq_structured_answer user_query (PList []) array_reply
     = Raise TypeError.
Proof. split; reflexivity. Qed.




(** ** The scenarios of the specification, run on the model *)

Example scenario_a_query :
  @_build_search_query sample_tables
    (of_string "Nearest Tata dealer in Wakad Pune")
  = of_string "Nearest Tata dealer in Wakad Pune".
Proof. reflexivity. Qed.

Example scenario_a_answer :
  groq_structured_answer (of_string "Nearest Tata dealer in Wakad Pune")
    (PList
       [PDict [(k_title, PStr (of_string "A")); (k_url, PStr (of_string "u1"));
               (k_content, PStr (of_string "c1"))];
        PDict [(k_title, PStr (of_string "B")); (k_url, PStr (of_string "u2"));
               (k_content, PStr (of_string "c2"))]])
    (Some (quoted "{'dealers': [{'name': 'Wakad Motors', 'confidence': 'high'}]}"))
  = Return (PDict
      [(of_string "dealers",
        PList [PDict [(of_string "name", PStr (of_string "Wakad Motors"));
                      (of_string "confidence", PStr (of_string "high"))]]);
       (k_mode, PStr (of_string "structured"));
       (k_sources_used,
        PList [PDict [(k_title, PStr (of_string "A"));
                      (k_url, PStr (of_string "u1"))];
               PDict [(k_title, PStr (of_string "B"));
                      (k_url, PStr (of_string "u2"))]])]).
Proof. reflexivity. Qed.

Example scenario_b_query :
  @_build_search_query sample_tables (of_string "showroom near Andheri")
  = of_string "Tata Motors dealer showroom showroom near Andheri".
Proof. reflexivity. Qed.

Example scenario_b_answer :
  groq_structured_answer (of_string "showroom near Andheri")
    (tavily_search (PDict [(of_string "results", PList [])]))
    (Some (quoted "{'dealers': [], 'follow_up_question': 'Which city?'}"))
  = Return (PDict
      [(of_string "dealers", PList []);
       (of_string "follow_up_question", PStr (of_string "Which city?"));
       (k_mode, PStr (of_string "structured"));
       (k_sources_used, PList [])]).
Proof. reflexivity. Qed.

Example scenario_c_answer :
  groq_structured_answer sample_query (PList []) prose_reply
  = Return (fallback_record sample_query
              (quoted "Here is the info: {'dealers': []}") []).
Proof. reflexivity. Qed.

(** The decoder on a few texts: constants it accepts beyond the JSON
    grammar, a repeated key, a surrogate pair, and texts it refuses. *)
Example decoder_samples :
  Json.json_loads (of_string "NaN") = Return (PFloat FNaN)
  /\ Json.json_loads (of_string " [1, 2.5e3, -0, true, null] ")
     = Return (PList [PInt 1; PFloat (FDec false 25 2); PInt 0;
                      PBool true; PNone])
  /\ Json.json_loads (quoted "{'a': 1, 'b': 2, 'a': 3}")
     = Return (PDict [(of_string "a", PInt 3); (of_string "b", PInt 2)])
  /\ Json.json_loads (quoted "'" ++ [92] ++ of_string "ud83d" ++ [92]
                      ++ of_string "ude00" ++ quoted "'")
     = Return (PStr [128512])
  /\ Json.json_loads (of_string "[1,]") = Raise JSONDecodeError
  /\ Json.json_loads (of_string "01") = Raise JSONDecodeError
  /\ Json.json_loads (of_string "{} x") = Raise JSONDecodeError
  /\ Json.json_loads [] = Raise JSONDecodeError.
Proof. repeat split. Qed.

(** * Further properties of the code *)

(** ** More on the fence stripper *)

Module FenceMore.
Import StripFacts FenceFacts ContainsFacts.

Lemma infix_refl (s : str) : is_infix_of s s.
Proof. exists [], []. now rewrite app_nil_r. Qed.

Lemma infix_trans (a b c : str) :
  is_infix_of a b -> is_infix_of b c -> is_infix_of a c.
Proof.
  intros [x [y ->]] [u [v ->]]. exists (u ++ x), (y ++ v).
  now rewrite <- !app_assoc.
Qed.

Lemma suffix_infix (a p : str) : is_infix_of p (a ++ p).
Proof. exists a, []. now rewrite app_nil_r. Qed.

Lemma prefix_infix (p b : str) : is_infix_of p (p ++ b).
Proof. now exists [], b. Qed.

Lemma strip_infix (s : str) : is_infix_of (strip s) s.
Proof. destruct (strip_split s) as [a [b [E _]]]. now exists a, b. Qed.

Lemma drop_while_infix (s : str) : is_infix_of (drop_while is_space s) s.
Proof.
  destruct (drop_while_split s) as [ws [E _]].
  rewrite E at 2. apply suffix_infix.
Qed.

Lemma sub_fence_json_infix (t : str) : is_infix_of (Re.sub_fence_json t) t.
Proof.
  unfold Re.sub_fence_json.
  destruct (strip_prefix Re.fence t) as [r|] eqn:E; [|apply infix_refl].
  apply strip_prefix_some in E.
  destruct r as [|j [|s [|o [|n r]]]]; try apply infix_refl.
  destruct (_ && _); [|apply infix_refl].
  apply (infix_trans _ r); [apply drop_while_infix|].
  rewrite E. change (j :: s :: o :: n :: r) with ([j; s; o; n] ++ r).
  rewrite app_assoc. apply suffix_infix.
Qed.

Lemma sub_fence_open_infix (t : str) : is_infix_of (Re.sub_fence_open t) t.
Proof.
  unfold Re.sub_fence_open.
  destruct (strip_prefix Re.fence t) as [r|] eqn:E; [|apply infix_refl].
  apply strip_prefix_some in E.
  apply (infix_trans _ r); [apply drop_while_infix|].
  rewrite E. apply suffix_infix.
Qed.

(** On a trimmed text the [$] of the third pattern can only be the end
    of the text. *)
Lemma sub_fence_close_trimmed (t : str) :
  trimmed t -> strip_prefix Re.fence (rev t) = None ->
  Re.sub_fence_close t = t.
Proof.
  intros [_ Hr] E. unfold Re.sub_fence_close. rewrite E.
  destruct (rev t) as [|c r] eqn:Er; [reflexivity|].
  pose proof (drop_while_head _ _ _ Hr) as Hsp.
  destruct (N.eqb_spec c 10) as [->|Hc]; [discriminate|].
  destruct c as [|p]; [reflexivity|].
  repeat (destruct p as [p|p|]; try reflexivity); exfalso; now apply Hc.
Qed.

Lemma sub_fence_close_infix (t : str) :
  trimmed t -> is_infix_of (Re.sub_fence_close t) t.
Proof.
  intros Ht.
  destruct (strip_prefix Re.fence (rev t)) as [r|] eqn:E.
  - unfold Re.sub_fence_close. rewrite E.
    apply strip_prefix_some in E.
    assert (Et : t = rev r ++ Re.fence).
    { rewrite <- (rev_involutive t), E, rev_app_distr. reflexivity. }
    destruct (drop_while_split r) as [ws [Er _]].
    rewrite Et. rewrite Er at 2. rewrite rev_app_distr, <- app_assoc.
    apply prefix_infix.
  - rewrite (sub_fence_close_trimmed t Ht E). apply infix_refl.
Qed.

Lemma strip_spaces (s : str) : spaces s -> strip s = [].
Proof.
  intros H. unfold strip, rstrip, lstrip.
  assert (E : drop_while is_space (rev s) = []).
  { rewrite <- (app_nil_r (rev s)).
    now rewrite (drop_while_spaces _ _ (spaces_rev _ H)). }
  now rewrite E.
Qed.

Lemma drop_while_app_keeps (a b : str) (c : cp) (r : str) :
  drop_while is_space a = c :: r ->
  drop_while is_space (a ++ b) = (c :: r) ++ b.
Proof.
  intros E. destruct (drop_while_split a) as [ws [Ea Hws]].
  rewrite Ea at 1. rewrite <- app_assoc, (drop_while_spaces _ _ Hws), E.
  cbn [app]. apply drop_while_keeps. exact (drop_while_head _ _ _ E).
Qed.

(** Stripping behind a prefix that ends with something that is no
    whitespace. *)
Lemma rstrip_behind (p : str) (z : cp) (rest : str) :
  is_space z = false ->
  rstrip ((p ++ [z]) ++ rest) = (p ++ [z]) ++ rstrip rest.
Proof.
  intros Hz. unfold rstrip. rewrite rev_app_distr.
  destruct (drop_while is_space (rev rest)) as [|c r] eqn:E.
  - destruct (drop_while_split (rev rest)) as [ws [Er Hws]].
    rewrite E, app_nil_r in Er. rewrite Er, (drop_while_spaces _ _ Hws).
    rewrite rev_app_distr. cbn [rev app].
    rewrite (drop_while_keeps _ _ Hz).
    change (z :: rev p) with ([z] ++ rev p).
    rewrite rev_app_distr, rev_involutive. cbn [rev app]. now rewrite app_nil_r.
  - rewrite (drop_while_app_keeps _ _ _ _ E).
    now rewrite rev_app_distr, rev_involutive.
Qed.

Lemma strip_behind (a : cp) (p : str) (z : cp) (rest : str) :
  is_space a = false -> is_space z = false ->
  strip (((a :: p) ++ [z]) ++ rest) = ((a :: p) ++ [z]) ++ rstrip rest.
Proof.
  intros Ha Hz. unfold strip. rewrite (rstrip_behind (a :: p) z rest Hz).
  unfold lstrip. cbn [app]. now apply drop_while_keeps.
Qed.

End FenceMore.

Import FenceMore.

(** X1. What the fence stripper returns has no whitespace at either end
    and is a contiguous part of the text it was given: it only removes
    text from the two ends. *)
Theorem strip_fences_is_trimmed_part (t : option str) :
  trimmed (_strip_code_fences t)
  /\ is_infix_of (_strip_code_fences t) (or_empty t).
Proof.
  unfold _strip_code_fences. split; [apply strip_trimmed|].
  set (a := strip (or_empty t)).
  set (b := strip (Re.sub_fence_json a)).
  set (c := strip (Re.sub_fence_open b)).
  apply (infix_trans _ a); [|apply strip_infix].
  apply (infix_trans _ b);
    [|apply (infix_trans _ (Re.sub_fence_json a));
      [apply strip_infix | apply sub_fence_json_infix]].
  apply (infix_trans _ c);
    [|apply (infix_trans _ (Re.sub_fence_open b));
      [apply strip_infix | apply sub_fence_open_infix]].
  apply (infix_trans _ (Re.sub_fence_close c)); [apply strip_infix|].
  apply sub_fence_close_infix, strip_trimmed.
Qed.

(** X2. The fence stripper returns a text just trimmed exactly when the
    trimmed text neither starts nor ends with a fence; its result is
    never longer than the trimmed text. *)
Theorem strip_fences_fixed_iff (t : str) :
  (_strip_code_fences (Some t) = strip t
   <-> startswith Re.fence (strip t) = false
       /\ endswith Re.fence (strip t) = false)
  /\ (List.length (_strip_code_fences (Some t)) <= List.length (strip t))%nat.
Proof.
  split; [split|].
  - intros E.
    destruct (startswith Re.fence (strip t)) eqn:Hs;
      [|destruct (endswith Re.fence (strip t)) eqn:He; [|now split]];
      exfalso;
      [ pose proof (own_fence_shrinks (strip t) (strip_trimmed t)
                      (or_introl Hs)) as L
      | pose proof (own_fence_shrinks (strip t) (strip_trimmed t)
                      (or_intror He)) as L ];
      unfold _strip_code_fences, or_empty in E; rewrite E in L; lia.
  - intros [Hs He]. unfold _strip_code_fences, or_empty.
    exact (unfenced_fixed (strip t) (strip_trimmed t) Hs He).
  - unfold _strip_code_fences, or_empty.
    set (a := strip t).
    set (b := strip (Re.sub_fence_json a)).
    set (c := strip (Re.sub_fence_open b)).
    pose proof (strip_le (Re.sub_fence_json a)).
    pose proof (sub_fence_json_le a).
    pose proof (strip_le (Re.sub_fence_open b)).
    pose proof (sub_fence_open_le b).
    pose proof (strip_le (Re.sub_fence_close c)).
    pose proof (sub_fence_close_le c).
    fold b in H. fold c in H1. lia.
Qed.

(** X3. The language tag of the opening fence is read without regard to
    letter case: a fenced text whose tag is any case variant of [json]
    (U+017F, the long s, counts as an [s]) is stripped to the same
    result as with the tag [json]. *)
Theorem fence_tag_any_case (j s o n : cp) (rest : str) :
  Re.ci_j j = true -> Re.ci_s s = true ->
  Re.ci_o o = true -> Re.ci_n n = true ->
  _strip_code_fences (Some (Re.fence ++ [j; s; o; n] ++ rest))
  = _strip_code_fences (Some (Re.fence ++ of_string "json" ++ rest)).
Proof.
  intros Hj Hs Ho Hn.
  assert (Zn : is_space n = false).
  { unfold Re.ci_n in Hn. apply orb_true_iff in Hn as [E|E];
      apply N.eqb_eq in E; now subst. }
  unfold _strip_code_fences, or_empty.
  assert (E1 : strip (Re.fence ++ [j; s; o; n] ++ rest)
               = Re.fence ++ [j; s; o; n] ++ rstrip rest).
  { exact (strip_behind 96 [96; 96; j; s; o] n rest eq_refl Zn). }
  assert (E2 : strip (Re.fence ++ of_string "json" ++ rest)
               = Re.fence ++ of_string "json" ++ rstrip rest).
  { exact (strip_behind 96 [96; 96; 106; 115; 111] 110 rest eq_refl eq_refl). }
  rewrite E1, E2.
  assert (J1 : Re.sub_fence_json (Re.fence ++ [j; s; o; n] ++ rstrip rest)
               = drop_while is_space (rstrip rest)).
  { unfold Re.sub_fence_json. rewrite strip_prefix_app. cbn [app].
    now rewrite Hj, Hs, Ho, Hn. }
  now rewrite J1.
Qed.

Lemma fence_tag_any_case_witness :
  Re.ci_j 74 = true /\ Re.ci_s 383 = true
  /\ Re.ci_o 79 = true /\ Re.ci_n 110 = true
  /\ _strip_code_fences
       (Some (Re.fence ++ [74; 383; 79; 110] ++ quoted " {'a': 1}```"))
     = _strip_code_fences
         (Some (Re.fence ++ of_string "json" ++ quoted " {'a': 1}```")).
Proof.
  repeat (split; [reflexivity|]).
  exact (fence_tag_any_case 74 383 79 110 (quoted " {'a': 1}```")
           eq_refl eq_refl eq_refl eq_refl).
Defined.

(** ** More on the query normalizer *)

(** X4. The query the normalizer returns always contains the brand
    keyword, so normalizing it again changes nothing. *)
Theorem normalizer_idempotent (U : UnicodeData) (raw : str) :
  tables_ok U ->
  mentions brand_keyword (_build_search_query raw)
  /\ _build_search_query (_build_search_query raw) = _build_search_query raw.
Proof.
  intros HU.
  assert (M : mentions brand_keyword (_build_search_query raw)).
  { unfold _build_search_query.
    destruct (contains brand_keyword (Lower.lower raw)) eqn:E; cbn [negb].
    - exact (LowerFacts.lower_contains_mentions HU raw [] E).
    - exists [], (of_string "Tata"),
        (of_string " Motors dealer showroom " ++ raw).
      split; [reflexivity|].
      repeat constructor; (left; reflexivity) || (right; reflexivity). }
  split; [exact M|].
  unfold _build_search_query at 1.
  now rewrite (LowerFacts.mentions_lower_contains HU _ M).
Qed.

Lemma normalizer_idempotent_witness :
  tables_ok sample_tables
  /\ mentions brand_keyword (@_build_search_query sample_tables sample_query)
  /\ @_build_search_query sample_tables
       (@_build_search_query sample_tables sample_query)
     = @_build_search_query sample_tables sample_query.
Proof.
  split; [exact LowerFacts.sample_tables_ok|].
  exact (normalizer_idempotent sample_tables sample_query
           LowerFacts.sample_tables_ok).
Defined.

(** ** More on compaction and extraction *)

Module CompactFacts.
Import ExtractFacts.

Lemma compact_result_iff (r : pyval) :
  (exists s, compact_result r = Return s) <-> compactable r = true.
Proof.
  unfold compact_result, compactable, sliceable.
  destruct r; cbn [py_get bind];
    try (split; [intros [x E]; discriminate E | discriminate]).
  set (c := match dict_get d k_content with Some x => x | None => PNone end).
  destruct (py_or c (PStr [])); cbn [py_slice_to bind];
    (split; [intros [x E]; (discriminate E || reflexivity)
            | intros E; (discriminate E || (eexists; reflexivity))]).
Qed.

Lemma map_m_compact_iff (rs : list pyval) :
  (exists c, map_m compact_result rs = Return c)
  <-> forallb compactable rs = true.
Proof.
  induction rs as [|r rs IH]; cbn [map_m forallb].
  - split; [reflexivity | intros _; now exists []].
  - rewrite andb_true_iff, <- IH, <- compact_result_iff. split.
    + intros [c E].
      destruct (compact_result r) as [s|]; cbn [bind] in E; [|discriminate].
      destruct (map_m compact_result rs) as [ss|]; cbn [bind] in E;
        [|discriminate].
      split; eexists; reflexivity.
    + intros [[s ->] [c ->]]. cbn [bind]. eexists; reflexivity.
Qed.

Lemma compact_result_from (r s : pyval) :
  compact_result r = Return s -> compacted_from r s.
Proof.
  unfold compact_result, compacted_from.
  destruct r; cbn [py_get bind]; try discriminate.
  set (c := match dict_get d k_content with Some x => x | None => PNone end).
  destruct (py_or c (PStr [])) as [| | | |x|x|] eqn:Eo;
    cbn [py_slice_to bind]; try discriminate; intros [= <-].
  - repeat split.
    + exists (List.length (firstn 1200 x)). split; [reflexivity|].
      apply firstn_le_length.
    + intros c' [= E]. unfold py_or in Eo. rewrite E in Eo.
      cbn [py_get dict_get k_content k_title k_url]. cbn.
      destruct c'; cbn in Eo; now inversion Eo.
  - repeat split.
    + exists (List.length (firstn 1200 x)). split; [reflexivity|].
      apply firstn_le_length.
    + intros c' [= E]. unfold py_or in Eo. rewrite E in Eo.
      destruct c'; cbn in Eo; discriminate Eo.
Qed.

Lemma map_m_compact_from (rs compact : list pyval) :
  map_m compact_result rs = Return compact ->
  Forall2 compacted_from rs compact.
Proof.
  revert compact. induction rs as [|r rs IH]; intros compact; cbn [map_m].
  - intros [= <-]. constructor.
  - destruct (compact_result r) as [s|] eqn:Es; cbn [bind]; [|discriminate].
    destruct (map_m compact_result rs) as [ss|]; cbn [bind]; [|discriminate].
    intros [= <-]. constructor; [now apply compact_result_from | now apply IH].
Qed.

End CompactFacts.

(** X5. A list of search results can be compacted exactly when every
    result is a dictionary whose content is absent, null or otherwise
    false, a string, or a list; any other result makes the comprehension
    raise. *)
Theorem compaction_succeeds_iff (rs : list pyval) :
  ((exists compact, compact_results (PList rs) = Return compact)
   <-> forallb compactable rs = true)
  /\ (forallb compactable rs = false ->
      exists e, compact_results (PList rs) = Raise e).
Proof.
  unfold compact_results. cbn [py_iter bind].
  pose proof (CompactFacts.map_m_compact_iff rs) as H. split; [exact H|].
  intros F. destruct (map_m compact_result rs) as [c|e]; [|now exists e].
  assert (T : forallb compactable rs = true) by (apply H; now exists c).
  congruence.
Qed.

(** X6. Compaction keeps the results in order and one for one. Each
    compacted result has exactly the keys title, url and content; title
    and url are those of the search result, and the content is cut to at
    most 1200 characters (a string content to its first 1200). *)
Theorem compaction_shape (rs compact : list pyval) :
  compact_results (PList rs) = Return compact ->
  Forall2 compacted_from rs compact
  /\ List.length compact = List.length rs.
Proof.
  unfold compact_results. cbn [py_iter bind]. intros H.
  pose proof (CompactFacts.map_m_compact_from rs compact H) as F.
  split; [exact F|]. symmetry. exact (Forall2_length F).
Qed.

Lemma compaction_shape_witness :
  compact_results (PList [PDict [(k_url, PStr (of_string "u"));
                                 (of_string "score", PInt 1)]])
  = Return [PDict [(k_title, PNone); (k_url, PStr (of_string "u"));
                   (k_content, PStr [])]]
  /\ Forall2 compacted_from
       [PDict [(k_url, PStr (of_string "u")); (of_string "score", PInt 1)]]
       [PDict [(k_title, PNone); (k_url, PStr (of_string "u"));
               (k_content, PStr [])]].
Proof.
  split; [reflexivity|].
  exact (proj1 (compaction_shape
                  [PDict [(k_url, PStr (of_string "u"));
                          (of_string "score", PInt 1)]] _ eq_refl)).
Defined.

(** X7. A provider response whose [results] field is null, a number or
    a boolean is not degraded to the empty sequence: [tavily_search]
    passes the value on, the comprehension cannot run over it, and the
    extractor raises [TypeError] before the model is asked anything. *)
Theorem results_not_iterable_raise
    (d : dict) (v : pyval) (chat : chat_client) (user_query : str) :
  dict_get d (of_string "results") = Some v ->
  not_iterable v = true ->
  tavily_search (PDict d) = v
  /\ groq_structured_answer_call chat user_query (tavily_search (PDict d))
     = Raise TypeError
  /\ forall reply,
       groq_structured_answer user_query (tavily_search (PDict d)) reply
       = Raise TypeError.
Proof.
  intros Hd Hv. cbn [tavily_search]. rewrite Hd.
  split; [reflexivity|].
  unfold groq_structured_answer_call, groq_structured_answer, compact_results.
  destruct v; try discriminate; split; reflexivity.
Qed.

Lemma results_not_iterable_raise_witness :
  dict_get [(of_string "results", PNone)] (of_string "results") = Some PNone
  /\ not_iterable PNone = true
  /\ groq_structured_answer_call (fun _ => Return prose_reply) sample_query
       (tavily_search (PDict [(of_string "results", PNone)]))
     = Raise TypeError.
Proof.
  split; [reflexivity|]. split; [reflexivity|].
  exact (proj1 (proj2 (results_not_iterable_raise
                         [(of_string "results", PNone)] PNone
                         (fun _ => Return prose_reply) sample_query
                         eq_refl eq_refl))).
Defined.

(** X8. A reply that is missing, empty or only whitespace gives the
    fallback record with the empty text as response. *)
Theorem blank_reply_falls_back
    (user_query : str) (web_results : pyval) (reply : option str)
    (compact : list pyval) :
  compact_results web_results = Return compact ->
  spaces (or_empty reply) ->
  cleaned_text reply = []
  /\ groq_structured_answer user_query web_results reply
     = Return (fallback_record user_query [] compact).
Proof.
  intros Hc Hs.
  assert (E : cleaned_text reply = []).
  { unfold cleaned_text, _strip_code_fences. cbn [or_empty].
    now rewrite (strip_spaces _ Hs). }
  split; [exact E|].
  pose proof (ExtractFacts.extract_fallback user_query web_results reply
                compact Hc) as F.
  cbv zeta in F. fold (cleaned_text reply) in F. rewrite E in F.
  apply F. reflexivity.
Qed.

Lemma blank_reply_falls_back_witness :
  compact_results (PList []) = Return []
  /\ spaces (or_empty None)
  /\ groq_structured_answer sample_query (PList []) None
     = Return (fallback_record sample_query [] []).
Proof.
  split; [reflexivity|]. split; [constructor|].
  exact (proj2 (blank_reply_falls_back sample_query (PList []) None []
                  eq_refl (Forall_nil _))).
Defined.

(** X9. Whenever the extractor returns, it returns a dictionary of one of
    two kinds: the fallback record, when nothing or [null] was parsed, or
    the parsed object with mode [structured]; never a record of another
    mode. *)
Theorem returned_record_mode
    (user_query : str) (web_results : pyval) (reply : option str)
    (r : pyval) :
  groq_structured_answer user_query web_results reply = Return r ->
  (is_fallback r /\ ~ is_structured r
   /\ _safe_json_loads (cleaned_text reply) = PNone)
  \/ (is_structured r /\ ~ is_fallback r
      /\ exists d, _safe_json_loads (cleaned_text reply) = PDict d).
Proof.
  intros H.
  destruct (compact_results web_results) as [compact|e] eqn:Hc.
  2:{ unfold groq_structured_answer in H. rewrite Hc in H. discriminate H. }
  destruct (_safe_json_loads (cleaned_text reply)) as [| | | | | |d] eqn:Ep.
  1:{ left.
      rewrite (ExtractFacts.extract_fallback user_query web_results reply
                 compact Hc Ep) in H.
      injection H as <-. split; [reflexivity|]. split; [|reflexivity].
      intros Hm. discriminate Hm. }
  6:{ right.
      rewrite (ExtractFacts.extract_object user_query web_results reply
                 compact Hc d Ep) in H.
      injection H as <-.
      assert (S : is_structured
                    (PDict (dict_set
                      (dict_set d k_mode (PStr (of_string "structured")))
                      k_sources_used
                      (PList (List.map title_url (filter has_url compact)))))).
      { unfold is_structured, has_mode. cbn [py_get].
        rewrite ExtractFacts.dict_get_set_other by (now apply key_distinct).
        now rewrite ExtractFacts.dict_get_set_same. }
      split; [exact S|]. split; [|now exists d].
      unfold is_fallback, is_structured, has_mode in *. rewrite S.
      intros Hm. discriminate Hm. }
  all: exfalso;
    erewrite (ExtractFacts.extract_other user_query web_results reply
                compact Hc _ Ep) in H; try discriminate; reflexivity.
Qed.

Lemma returned_record_mode_witness :
  groq_structured_answer sample_query sample_results prose_reply
  = Return (fallback_record sample_query
              (quoted "Here is the info: {'dealers': []}")
              [PDict [(k_title, PStr (of_string "Tata Motors Andheri"));
                      (k_url, PStr (of_string "https://example.com/andheri"));
                      (k_content,
                       PStr (of_string "Showroom, Andheri West, Mumbai"))];
               PDict [(k_title, PStr (of_string "Dealer list"));
                      (k_url, PStr []); (k_content, PStr [])];
               PDict [(k_title, PNone);
                      (k_url, PStr (of_string "https://example.com/pune"));
                      (k_content, PStr [])]])
  /\ _safe_json_loads (cleaned_text prose_reply) = PNone.
Proof.
  split; [reflexivity|].
  destruct (returned_record_mode sample_query sample_results prose_reply _
              eq_refl) as [[_ [_ E]]|[_ [_ [d E]]]]; [exact E | discriminate E].
Defined.

(** ** The display of a response *)

Module DisplayFacts.
Import App.

Lemma render_dealer_dict (d : dict) :
  render_dealer (PDict d)
  = ([StContainer (StSubheader (dget d "name") :: card_inner d ++ [rule])],
     Next tt).
Proof.
  unfold render_dealer, write_field, card_inner, dget.
  cbn [py_get lift ui_bind within emit ret app].
  destruct (truthy _); reflexivity.
Qed.

Lemma render_dealer_other (v : pyval) :
  is_dict v = false ->
  render_dealer v = ([StContainer []], Fail (Raised AttributeError)).
Proof. destruct v; try reflexivity. discriminate. Qed.

Lemma render_dealer_shows (v : pyval) :
  is_dict v = true ->
  exists w, render_dealer v = ([w], Next tt) /\ shows_dealer v w.
Proof.
  destruct v; try discriminate. intros _.
  eexists. split; [apply render_dealer_dict|].
  exists (dget d "name"), (card_inner d). split; reflexivity.
Qed.

Lemma for_each_dicts (ds : list pyval) :
  Forall (fun v => is_dict v = true) ds ->
  exists cards,
    for_each render_dealer ds = (cards, Next tt)
    /\ Forall2 shows_dealer ds cards.
Proof.
  induction 1 as [|v ds Hv _ [cards [E F]]].
  - exists []. split; [reflexivity | constructor].
  - destruct (render_dealer_shows v Hv) as [w [Ew Sw]].
    exists (w :: cards). split; [|now constructor].
    cbn [for_each]. rewrite Ew. cbn [ui_bind]. now rewrite E.
Qed.

Lemma for_each_stops (good rest : list pyval) (bad : pyval) :
  Forall (fun v => is_dict v = true) good ->
  is_dict bad = false ->
  exists cards,
    for_each render_dealer (good ++ bad :: rest)
    = (cards ++ [StContainer []], Fail (Raised AttributeError))
    /\ Forall2 shows_dealer good cards.
Proof.
  intros Hg Hb. induction Hg as [|v ds Hv _ [cards [E F]]].
  - exists []. split; [|constructor].
    cbn [app for_each]. now rewrite (render_dealer_other bad Hb).
  - destruct (render_dealer_shows v Hv) as [w [Ew Sw]].
    exists (w :: cards). split; [|now constructor].
    cbn [app for_each]. rewrite Ew. cbn [ui_bind]. now rewrite E.
Qed.

(** The display of a structured response, up to the dealers. *)
Lemma render_structured (d : dict) :
  is_structured (PDict d) ->
  render_response (PDict d)
  = let (w, r) :=
      if negb (truthy (dealers_of d))
      then emit no_dealers_note
      else ds <~ lift (py_iter (dealers_of d)) ;; for_each render_dealer ds in
    match r with
    | Next _ => (follow_up_part d ++ w ++ [sources_expander d], Next tt)
    | Stop => (follow_up_part d ++ w, Stop)
    | Fail f => (follow_up_part d ++ w, Fail f)
    end.
Proof.
  unfold is_structured, has_mode. cbn [py_get]. intros [= Hm].
  unfold render_response. cbn [py_get lift ui_bind]. rewrite Hm.
  cbn [py_eq_str]. rewrite (ExtractFacts.str_eqb_refl _).
  unfold follow_up_part, dget, sources_expander, py_getitem.
  fold k_follow_up. fold k_sources_used.
  cbn [py_get_default]. fold (dealers_of d).
  destruct (dict_get d k_follow_up) as [q|] eqn:Eq; cbn [truthy].
  - destruct (truthy q); cbn [ui_bind emit ret app];
      destruct (if negb (truthy (dealers_of d)) then _ else _) as [w [u| |f]];
      cbn [ui_bind within emit app]; try rewrite app_nil_r; reflexivity.
  - cbn [ui_bind emit ret app];
      destruct (if negb (truthy (dealers_of d)) then _ else _) as [w [u| |f]];
      cbn [ui_bind within emit app]; try rewrite app_nil_r; reflexivity.
Qed.

End DisplayFacts.



(** X11. A structured response whose [dealers] is missing, null, the
    empty list or otherwise false is displayed without raising: the
    follow-up question as a warning when there is one, the note that no
    dealers were found, and the sources in their expander. *)
Theorem no_dealers_display (d : dict) :
  is_structured (PDict d) ->
  truthy (dealers_of d) = false ->
  App.render_response (PDict d)
  = (follow_up_part d ++ [no_dealers_note; sources_expander d], Next tt).
Proof.
  intros Hs Hd. rewrite (DisplayFacts.render_structured d Hs), Hd.
  reflexivity.
Qed.

Lemma no_dealers_display_witness :
  is_structured (PDict [(k_mode, PStr (of_string "structured"));
                        (App.k_follow_up, PStr (of_string "Which city?"));
                        (k_sources_used, PList [])])
  /\ App.render_response
       (PDict [(k_mode, PStr (of_string "structured"));
               (App.k_follow_up, PStr (of_string "Which city?"));
               (k_sources_used, PList [])])
     = ([StWarning (PStr (of_string "Which city?")); no_dealers_note;
         StExpander (of_string "Sources Used") [StJson (PList [])]], Next tt).
Proof.
  split; [reflexivity|].
  exact (no_dealers_display
           [(k_mode, PStr (of_string "structured"));
            (App.k_follow_up, PStr (of_string "Which city?"));
            (k_sources_used, PList [])] eq_refl eq_refl).
Defined.

(** X12. A structured response whose [dealers] is a non-empty list of
    dictionaries is displayed without raising: the follow-up question
    when there is one, then one container per dealer, in the order of the
    list, each starting with the dealer's name, then the sources. *)
Theorem dealers_display (d : dict) (ds : list pyval) :
  is_structured (PDict d) ->
  dict_get d App.k_dealers = Some (PList ds) ->
  ds <> [] ->
  Forall (fun v => is_dict v = true) ds ->
  exists cards,
    App.render_response (PDict d)
    = (follow_up_part d ++ cards ++ [sources_expander d], Next tt)
    /\ Forall2 shows_dealer ds cards.
Proof.
  intros Hs Hd Hne Hds.
  destruct (DisplayFacts.for_each_dicts ds Hds) as [cards [E F]].
  exists cards. split; [|exact F].
  rewrite (DisplayFacts.render_structured d Hs).
  unfold dealers_of. rewrite Hd.
  destruct ds as [|v ds']; [congruence|].
  cbn [truthy negb py_iter lift ui_bind]. rewrite E. reflexivity.
Qed.

Lemma dealers_display_witness :
  exists cards,
    App.render_response
      (PDict [(App.k_dealers,
               PList [PDict [(of_string "name", PStr (of_string "A"))];
                      PDict [(of_string "name", PStr (of_string "B"))]]);
              (k_mode, PStr (of_string "structured"))])
    = (cards ++ [StExpander (of_string "Sources Used") [StJson PNone]], Next tt)
    /\ Forall2 shows_dealer
         [PDict [(of_string "name", PStr (of_string "A"))];
          PDict [(of_string "name", PStr (of_string "B"))]] cards.
Proof.
  refine (dealers_display
            [(App.k_dealers,
              PList [PDict [(of_string "name", PStr (of_string "A"))];
                     PDict [(of_string "name", PStr (of_string "B"))]]);
             (k_mode, PStr (of_string "structured"))]
            [PDict [(of_string "name", PStr (of_string "A"))];
             PDict [(of_string "name", PStr (of_string "B"))]]
            eq_refl eq_refl _ _).
  - discriminate.
  - repeat constructor.
Defined.

(** X13. When an entry of [dealers] is not a dictionary, the display
    raises [AttributeError] at that entry: the dealers before it have
    been shown, an empty container has been opened, and neither the
    later dealers nor the sources are shown. *)
Theorem bad_dealer_display (d : dict) (good rest : list pyval) (bad : pyval) :
  is_structured (PDict d) ->
  dict_get d App.k_dealers = Some (PList (good ++ bad :: rest)) ->
  Forall (fun v => is_dict v = true) good ->
  is_dict bad = false ->
  exists cards,
    App.render_response (PDict d)
    = (follow_up_part d ++ cards ++ [StContainer []],
       Fail (Raised AttributeError))
    /\ Forall2 shows_dealer good cards.
Proof.
  intros Hs Hd Hg Hb.
  destruct (DisplayFacts.for_each_stops good rest bad Hg Hb) as [cards [E F]].
  exists cards. split; [|exact F].
  rewrite (DisplayFacts.render_structured d Hs).
  unfold dealers_of. rewrite Hd.
  assert (T : truthy (PList (good ++ bad :: rest)) = true)
    by (destruct good; reflexivity).
  rewrite T. cbn [negb py_iter lift ui_bind]. rewrite E. reflexivity.
Qed.

Lemma bad_dealer_display_witness :
  exists cards,
    App.render_response
      (PDict [(App.k_dealers,
               PList ([PDict [(of_string "name", PStr (of_string "A"))]]
                      ++ PStr (of_string "B") :: []));
              (k_mode, PStr (of_string "structured"))])
    = (cards ++ [StContainer []], Fail (Raised AttributeError))
    /\ Forall2 shows_dealer
         [PDict [(of_string "name", PStr (of_string "A"))]] cards.
Proof.
  refine (bad_dealer_display
            [(App.k_dealers,
              PList ([PDict [(of_string "name", PStr (of_string "A"))]]
                     ++ PStr (of_string "B") :: []));
             (k_mode, PStr (of_string "structured"))]
            [PDict [(of_string "name", PStr (of_string "A"))]] []
            (PStr (of_string "B")) eq_refl eq_refl _ eq_refl).
  repeat constructor.
Defined.

(** X14. A dealer that is a dictionary is shown without raising, in one
    container that ends with the rule; a field the record lacks is shown
    as [None]; the website link is in the container exactly when the
    record has a website that is true (not missing, null or empty). *)
Theorem dealer_card (d : dict) :
  exists inner,
    App.render_dealer (PDict d)
    = ([StContainer (StSubheader (dget d "name") :: inner ++ [rule])], Next tt)
    /\ (In (website_link (dget d "website")) inner
        <-> truthy (dget d "website") = true)
    /\ (forall label key,
          In (label, key)
             [(App.label_address, "address"); (App.label_phone, "phone");
              (App.label_hours, "hours"); (App.label_city, "city");
              (App.label_area, "area");
              (App.label_confidence, "confidence")]%string ->
          exists i body,
            In (StColumn i body) inner
            /\ In (StWrite [PStr label; dget d key]) body).
Proof.
  exists (card_inner d). split; [apply DisplayFacts.render_dealer_dict|].
  split.
  - unfold card_inner.
    destruct (truthy (dget d "website")); cbn [app In]; split.
    + reflexivity.
    + intros _. do 3 right. now left.
    + intros [H|[H|[H|[]]]]; discriminate H.
    + discriminate.
  - intros label key H. unfold card_inner. cbn [In] in H.
    destruct H as [H|[H|[H|[H|[H|[H|[]]]]]]]; injection H as <- <-;
      [> exists 1%nat | exists 1%nat | exists 1%nat
       | exists 2%nat | exists 2%nat | exists 2%nat ];
      eexists; (split; [cbn [app In]; auto 6 | cbn [In]; auto 6]).
Qed.

(** ** One run of the script *)

Module ScriptFacts.
Import App.

Lemma page_header_runs : page_header = (header_widgets, Next tt).
Proof. reflexivity. Qed.

Lemma search_call_request {U : UnicodeData} (search : search_client)
    (user_query : str) :
  tavily_search_call search (_build_search_query user_query) 6
  = (res <- search (the_search_request user_query) ;;
     Return (tavily_search res)).
Proof. reflexivity. Qed.

(** A run with both keys, a click and a query: the two calls inside the
    spinner, then the display. *)
Lemma script_active {U : UnicodeData} (env : environment)
    (search : search_client) (chat : chat_client) (user_query : str) :
  keys_present env -> user_query <> [] ->
  script env search chat user_query true
  = match (res <- search (the_search_request user_query) ;;
           groq_structured_answer_call chat user_query (tavily_search res))
    with
    | Raise e => (header_widgets ++ [spinner []], Fail (Raised e))
    | Return r =>
        let (w, st) := render_response r in
        (header_widgets ++ spinner [] :: w, st)
    end.
Proof.
  intros [K1 K2] Hq. unfold script. rewrite K1, K2, page_header_runs.
  destruct user_query as [|c q]; [congruence|].
  cbn [ret ui_bind app andb truthy]. rewrite search_call_request.
  destruct (search (the_search_request (c :: q))) as [res|e];
    cbn [bind lift within ui_bind]; [|reflexivity].
  destruct (groq_structured_answer_call chat (c :: q) (tavily_search res))
    as [r|e]; cbn [bind lift within ui_bind app]; [|reflexivity].
  destruct (render_response r) as [w st]. reflexivity.
Qed.

End ScriptFacts.

(** X15. When a key is unset or empty, the run shows one error, for the
    Tavily key if that one is missing and else for the Groq key, and
    stops there: no page, no call to either provider. *)
Theorem missing_key_stops (U : UnicodeData) (env : App.environment)
    (search : search_client) (chat : chat_client)
    (user_query : str) (clicked : bool) :
  App.key_missing (App.TAVILY_API_KEY env) = true
  \/ App.key_missing (App.GROQ_API_KEY env) = true ->
  App.script env search chat user_query clicked
  = ([StError (if App.key_missing (App.TAVILY_API_KEY env)
               then of_string "Missing TAVILY_API_KEY in .env"
               else of_string "Missing GROQ_API_KEY in .env")], Stop).
Proof.
  intros H. unfold App.script.
  destruct (App.key_missing (App.TAVILY_API_KEY env)); [reflexivity|].
  destruct H as [H|H]; [discriminate|]. rewrite H. reflexivity.
Qed.

Lemma missing_key_stops_witness :
  App.key_missing (Some []) = true
  /\ @App.script sample_tables
       {| App.TAVILY_API_KEY := Some (of_string "tvly-key");
          App.GROQ_API_KEY := Some [] |}
       (fun _ => Return sample_results) (fun _ => Return prose_reply)
       sample_query true
     = ([StError (of_string "Missing GROQ_API_KEY in .env")], Stop).
Proof.
  split; [reflexivity|].
  exact (missing_key_stops sample_tables
           {| App.TAVILY_API_KEY := Some (of_string "tvly-key");
              App.GROQ_API_KEY := Some [] |}
           (fun _ => Return sample_results) (fun _ => Return prose_reply)
           sample_query true (or_intror eq_refl)).
Defined.

(** X16. With both keys set, a run without a click, or with an empty
    query, shows the page down to the button and nothing else; neither
    provider is called. *)
Theorem idle_run (U : UnicodeData) (env : App.environment)
    (search : search_client) (chat : chat_client)
    (user_query : str) (clicked : bool) :
  keys_present env ->
  clicked = false \/ user_query = [] ->
  App.script env search chat user_query clicked = (header_widgets, Next tt).
Proof.
  intros [K1 K2] H. unfold App.script.
  rewrite K1, K2, ScriptFacts.page_header_runs.
  assert (E : clicked && truthy (PStr user_query) = false).
  { destruct H as [->| ->]; [reflexivity | apply andb_false_r]. }
  cbn [ui_bind ret app]. rewrite E. cbn [ret].
  now rewrite app_nil_r.
Qed.

Lemma idle_run_witness :
  keys_present some_tables_env
  /\ @App.script sample_tables some_tables_env
       (fun _ => Raise TypeError) (fun _ => Raise TypeError) [] true
     = (header_widgets, Next tt).
Proof.
  assert (K : keys_present some_tables_env) by (split; reflexivity).
  split; [exact K|].
  exact (idle_run sample_tables some_tables_env
           (fun _ => Raise TypeError) (fun _ => Raise TypeError) [] true
           K (or_intror eq_refl)).
Defined.

(** X17. A run asks the search provider one thing only, the normalized
    query with depth [advanced], 6 results, no answer and no raw content,
    and asks the model only with the pinned model name and the query as
    the user typed it: two pairs of clients that agree on those requests
    give the same run. *)
Theorem run_depends_on_its_requests (U : UnicodeData)
    (env : App.environment) (search search' : search_client)
    (chat chat' : chat_client) (user_query : str) (clicked : bool) :
  search (the_search_request user_query)
  = search' (the_search_request user_query) ->
  (forall compact,
     chat (the_chat_request user_query compact)
     = chat' (the_chat_request user_query compact)) ->
  App.script env search chat user_query clicked
  = App.script env search' chat' user_query clicked.
Proof.
  intros Hs Hc. unfold App.script.
  rewrite !ScriptFacts.search_call_request, Hs.
  assert (G : forall results,
             groq_structured_answer_call chat user_query results
             = groq_structured_answer_call chat' user_query results).
  { intros results. unfold groq_structured_answer_call.
    destruct (compact_results results) as [compact|e]; [|reflexivity].
    cbn [bind]. fold (the_chat_request user_query compact).
    now rewrite Hc. }
  destruct (search' (the_search_request user_query)) as [res|e];
    cbn [bind lift ui_bind within]; [|reflexivity].
  now rewrite G.
Qed.

Lemma run_depends_on_its_requests_witness :
  @App.script sample_tables some_tables_env
    (fun r => if str_eqb (query r)
                   (of_string "Tata Motors dealer showroom showroom near Andheri")
              then Return (PDict []) else Raise TypeError)
    (fun _ => Return prose_reply) sample_query true
  = @App.script sample_tables some_tables_env
      (fun _ => Return (PDict [])) (fun _ => Return prose_reply)
      sample_query true.
Proof.
  exact (run_depends_on_its_requests sample_tables some_tables_env
           (fun r => if str_eqb (query r)
                          (of_string "Tata Motors dealer showroom showroom near Andheri")
                     then Return (PDict []) else Raise TypeError)
           (fun _ => Return (PDict []))
           (fun _ => Return prose_reply) (fun _ => Return prose_reply)
           sample_query true eq_refl (fun _ => eq_refl)).
Defined.

(** X18. An exception of the search client ends the run with that
    exception, with the page and the spinner shown and nothing else; the
    model is not asked. *)
Theorem search_error_ends_run (U : UnicodeData) (env : App.environment)
    (search : search_client) (chat : chat_client)
    (user_query : str) (e : exn) :
  keys_present env -> user_query <> [] ->
  search (the_search_request user_query) = Raise e ->
  App.script env search chat user_query true
  = (header_widgets ++ [spinner []], Fail (Raised e)).
Proof.
  intros K Hq Hs. rewrite (ScriptFacts.script_active env search chat
                             user_query K Hq), Hs.
  reflexivity.
Qed.

Lemma search_error_ends_run_witness :
  keys_present some_tables_env /\ sample_query <> []
  /\ @App.script sample_tables some_tables_env
       (fun _ => Raise AttributeError) (fun _ => Return prose_reply)
       sample_query true
     = (header_widgets ++ [spinner []], Fail (Raised AttributeError)).
Proof.
  assert (K : keys_present some_tables_env) by (split; reflexivity).
  assert (Q : sample_query <> []) by discriminate.
  split; [exact K|]. split; [exact Q|].
  exact (search_error_ends_run sample_tables some_tables_env
           (fun _ => Raise AttributeError) (fun _ => Return prose_reply)
           sample_query AttributeError K Q eq_refl).
Defined.

(** X19. An exception of the chat client ends the run with that
    exception in the same way: nothing is displayed for the request. *)
Theorem chat_error_ends_run (U : UnicodeData) (env : App.environment)
    (search : search_client) (chat : chat_client)
    (user_query : str) (res : pyval) (compact : list pyval) (e : exn) :
  keys_present env -> user_query <> [] ->
  search (the_search_request user_query) = Return res ->
  compact_results (tavily_search res) = Return compact ->
  chat (the_chat_request user_query compact) = Raise e ->
  App.script env search chat user_query true
  = (header_widgets ++ [spinner []], Fail (Raised e)).
Proof.
  intros K Hq Hs Hc He.
  rewrite (ScriptFacts.script_active env search chat user_query K Hq), Hs.
  cbn [bind]. unfold groq_structured_answer_call. rewrite Hc. cbn [bind].
  fold (the_chat_request user_query compact). rewrite He. reflexivity.
Qed.

Lemma chat_error_ends_run_witness :
  keys_present some_tables_env /\ sample_query <> []
  /\ @App.script sample_tables some_tables_env
       (fun _ => Return (PDict [])) (fun _ => Raise AttributeError)
       sample_query true
     = (header_widgets ++ [spinner []], Fail (Raised AttributeError)).
Proof.
  assert (K : keys_present some_tables_env) by (split; reflexivity).
  assert (Q : sample_query <> []) by discriminate.
  split; [exact K|]. split; [exact Q|].
  exact (chat_error_ends_run sample_tables some_tables_env
           (fun _ => Return (PDict [])) (fun _ => Raise AttributeError)
           sample_query (PDict []) [] AttributeError K Q
           eq_refl eq_refl eq_refl).
Defined.



Module RunFacts.
Import App ExtractFacts.




End RunFacts.





Module FencedReply.
Import StripFacts FenceFacts.

Lemma cleaned_fenced (t : str) :
  startswith Re.fence (strip t) = false ->
  endswith Re.fence (strip t) = false ->
  cleaned_text (Some (wrap_json t)) = strip t
  /\ cleaned_text (Some (wrap_plain t)) = strip t
  /\ cleaned_text (Some t) = strip t.
Proof.
  intros Hs He.
  destruct (strip_split t) as [ws1 [ws2 [E [H1 H2]]]].
  pose proof (body_json_path ws1 (strip t) ws2 H1 H2 (strip_trimmed t) Hs) as J.
  rewrite <- E in J.
  unfold cleaned_text. cbn [or_empty]. split; [|split].
  - unfold _strip_code_fences, or_empty.
    now rewrite strip_wrap_json, json_opening.
  - apply plain_block_content.
  - unfold _strip_code_fences, or_empty.
    exact (unfenced_fixed (strip t) (strip_trimmed t) Hs He).
Qed.

End FencedReply.

(** X23. A reply wrapped in a fenced block, with or without the [json]
    tag, gets the same answer from the extractor as the bare reply,
    provided the reply has no fence of its own at either end (as is the
    case for a JSON object or any other text that does not start or end
    with three backticks). *)
Theorem fenced_reply_same_answer
    (user_query : str) (web_results : pyval) (t : str) :
  startswith Re.fence (strip t) = false ->
  endswith Re.fence (strip t) = false ->
  groq_structured_answer user_query web_results (Some (wrap_json t))
  = groq_structured_answer user_query web_results (Some t)
  /\ groq_structured_answer user_query web_results (Some (wrap_plain t))
     = groq_structured_answer user_query web_results (Some t).
Proof.
  intros Hs He.
  destruct (FencedReply.cleaned_fenced t Hs He) as [J [P B]].
  unfold cleaned_text in J, P, B. cbn [or_empty] in J, P, B.
  unfold groq_structured_answer. cbn [or_empty].
  rewrite J, P, B. split; reflexivity.
Qed.

Lemma fenced_reply_same_answer_witness :
  startswith Re.fence (strip (quoted "{'dealers': []}")) = false
  /\ endswith Re.fence (strip (quoted "{'dealers': []}")) = false
  /\ groq_structured_answer sample_query sample_results
       (Some (wrap_json (quoted "{'dealers': []}")))
     = groq_structured_answer sample_query sample_results
         (Some (quoted "{'dealers': []}")).
Proof.
  split; [reflexivity|]. split; [reflexivity|].
  exact (proj1 (fenced_reply_same_answer sample_query sample_results
                  (quoted "{'dealers': []}") eq_refl eq_refl)).
Defined.
